(** * Portfolio backend: query composer, image adapter and CRUD handlers

    A shallow embedding of [models/Portfolio.js] (schema, [imageUrl],
    [findWithFilters], [incrementViews], [toggleLike]), of the handlers of
    [routes/portfolio.js], of the GridFS helpers of [middleware/upload.js]
    and of the query composer of the serverless entry point
    ([api/portfolio/index.js]), with the properties the specification
    states about them.

    Conventions.
    - JavaScript strings are Rocq strings holding their UTF-8 bytes.
    - JavaScript numbers that count things (views, likes, page numbers,
      timestamps) are integers of [Z]; they stay far below 2^53, where the
      arithmetic of doubles is exact.
    - The MongoDB collection is a finite map from [_id] to the document and
      the GridFS bucket a finite map from file id to the stored file.
    - [await]ed calls run in sequence: a handler is a function of the
      world, in a small state-and-exception monad.
    - What the JavaScript runtime, Mongoose and MongoDB decide (trimming,
      URL parsing, [parseInt], ObjectId casting, the [$text] index) is the
      interface [Platform]; fresh ObjectIds and the clock are arguments of
      the handlers that use them. *)

From Stdlib Require Import ZArith Lia Ascii.
From stdpp Require Import base option gmap strings list sorting.

Local Open Scope Z_scope.

(** ** JavaScript values and built-ins *)

Module JS.

(** The primitive values a JSON or form body can carry in a field. *)
Inductive value : Type :=
| Undefined
| Null
| Bool (b : bool)
| Num (n : Z)
| Str (s : string).

#[global] Instance value_eq_dec : EqDecision value.
Proof. solve_decision. Defined.

(** [ToBoolean]. *)
Definition truthy (v : value) : bool :=
  match v with
  | Undefined | Null => false
  | Bool b => b
  | Num n => negb (n =? 0)
  | Str s => negb (bool_decide (s = ""))
  end.

(** [a === b] on primitives. *)
Definition strict_eq (a b : value) : bool := bool_decide (a = b).

(** Truthiness of a string that may be [undefined]. *)
Definition truthy_str (o : option string) : bool :=
  match o with
  | Some s => negb (bool_decide (s = ""))
  | None => false
  end.

(** [s.split(',')]: the pieces between commas; one piece when there is
    no comma, also for the empty string. *)
Fixpoint split_comma_aux (acc : string) (s : string) : list string :=
  match s with
  | EmptyString => [String.rev acc]
  | String c s' =>
      if bool_decide (c = ","%char)
      then String.rev acc :: split_comma_aux EmptyString s'
      else split_comma_aux (String c acc) s'
  end.

Definition split_comma (s : string) : list string :=
  split_comma_aux EmptyString s.

(** [str.length]: the number of UTF-16 code units of the text whose
    UTF-8 bytes are [s]. Every code point has one byte that is no
    continuation byte (0x80..0xBF), and takes two units when that byte
    is 0xF0 or above. *)
Fixpoint length (s : string) : Z :=
  match s with
  | EmptyString => 0
  | String c s' =>
      let b := Z.of_N (N_of_ascii c) in
      (if (128 <=? b) && (b <=? 191) then 0
       else if 240 <=? b then 2 else 1) + length s'
  end.

(** [Math.ceil(a / b)] for integers [a] and [b > 0]. *)
Definition ceil_div (a b : Z) : Z := - ((- a) / b).

End JS.

(** ** What the platform decides *)

Definition ObjectId : Type := string.

Class Platform : Type := {
  (** [String.prototype.trim], also the [trim: true] setter of the schema. *)
  js_trim : string → string;
  (** [new URL(v)] does not throw. *)
  url_parses : string → bool;
  (** [parseInt(s)]; [None] is [NaN]. *)
  parseInt : string → option Z;
  (** [mongoose.Types.ObjectId.isValid(s)] and the cast that [findById]
      performs: [None] when the string is no ObjectId, otherwise the
      identifier it denotes, in the canonical form [toString] gives. *)
  castObjectId : string → option ObjectId;
  (** The [$text] operator over the text index on title, description and
      tags; the document is given by those three fields. *)
  text_search : string → string → string → list string → bool
}.

(** ** The schema of [models/Portfolio.js] *)

(** A document. Its [_id] is the key under which the collection holds
    it. [imageId] is [None] for [null], [url] is [None] when the path is
    not set. Of the two timestamps only [createdAt] is kept: no query
    reads [updatedAt]. *)
Record Portfolio : Type := mkPortfolio {
  title : string;
  description : string;
  image : string;
  imageId : option ObjectId;
  imageBase64 : string;
  url : option string;
  category : string;
  tags : list string;
  featured : bool;
  views : Z;
  likes : Z;
  createdAt : Z
}.

#[global] Instance Portfolio_eq_dec : EqDecision Portfolio.
Proof. solve_decision. Defined.

Definition category_values : list string :=
  ["AI/ML"; "엔터프라이즈"; "IoT"; "플랫폼"; "벤치마크"; "데이터"; "OCR"].

(** The virtual [imageUrl]. *)
Definition imageUrl (this : Portfolio) : string :=
  if JS.truthy_str (Some (imageBase64 this)) then imageBase64 this
  else match imageId this with
       | Some fid => "/api/portfolio/image/" +:+ fid
       | None =>
           if JS.truthy_str (Some (image this)) then image this else ""
       end.

(** Setters of the paths that the handlers and methods assign. The
    [trim: true] option of [title], [description], [url] and of each tag
    runs [trim] on assignment. *)
Section Setters.
Context `{Platform}.

Definition set_title (v : string) (p : Portfolio) : Portfolio :=
  let 'mkPortfolio _ d i ii ib u c t f vw lk ca := p in
  mkPortfolio (js_trim v) d i ii ib u c t f vw lk ca.

Definition set_description (v : string) (p : Portfolio) : Portfolio :=
  let 'mkPortfolio ti _ i ii ib u c t f vw lk ca := p in
  mkPortfolio ti (js_trim v) i ii ib u c t f vw lk ca.

Definition set_url (v : string) (p : Portfolio) : Portfolio :=
  let 'mkPortfolio ti d i ii ib _ c t f vw lk ca := p in
  mkPortfolio ti d i ii ib (Some (js_trim v)) c t f vw lk ca.

Definition set_category (v : string) (p : Portfolio) : Portfolio :=
  let 'mkPortfolio ti d i ii ib u _ t f vw lk ca := p in
  mkPortfolio ti d i ii ib u v t f vw lk ca.

Definition set_tags (v : list string) (p : Portfolio) : Portfolio :=
  let 'mkPortfolio ti d i ii ib u c _ f vw lk ca := p in
  mkPortfolio ti d i ii ib u c (js_trim <$> v) f vw lk ca.
End Setters.

Definition set_featured (v : bool) (p : Portfolio) : Portfolio :=
  let 'mkPortfolio ti d i ii ib u c t _ vw lk ca := p in
  mkPortfolio ti d i ii ib u c t v vw lk ca.

Definition set_imageId (v : option ObjectId) (p : Portfolio) : Portfolio :=
  let 'mkPortfolio ti d i _ ib u c t f vw lk ca := p in
  mkPortfolio ti d i v ib u c t f vw lk ca.

Definition set_imageBase64 (v : string) (p : Portfolio) : Portfolio :=
  let 'mkPortfolio ti d i ii _ u c t f vw lk ca := p in
  mkPortfolio ti d i ii v u c t f vw lk ca.

Definition set_views (v : Z) (p : Portfolio) : Portfolio :=
  let 'mkPortfolio ti d i ii ib u c t f _ lk ca := p in
  mkPortfolio ti d i ii ib u c t f v lk ca.

Definition set_likes (v : Z) (p : Portfolio) : Portfolio :=
  let 'mkPortfolio ti d i ii ib u c t f vw _ ca := p in
  mkPortfolio ti d i ii ib u c t f vw v ca.

(** The validators of the schema, run by [save]. [required] on a string
    path asks for a non-empty string; a path left [undefined] and an empty
    one fail alike, and the record holds the empty string for both. *)
Section Validation.
Context `{Platform}.

Definition required (s : string) : bool := negb (bool_decide (s = "")).

Definition maxlength (n : Z) (s : string) : bool := JS.length s <=? n.

Definition url_validator (v : option string) : bool :=
  if negb (JS.truthy_str v) then true
  else match v with Some s => url_parses s | None => true end.

Definition validate (p : Portfolio) : bool :=
  required (title p) && maxlength 200 (title p)
  && required (description p) && maxlength 2000 (description p)
  && url_validator (url p)
  && required (category p) && bool_decide (category p ∈ category_values)
  && forallb (maxlength 50) (tags p).
End Validation.

(** ** The world: the collection and the GridFS bucket *)

Record GridFile : Type := mkGridFile {
  originalName : string;
  contentType : string;
  content : list Byte.byte
}.

(** [gridfs] is [None] when [mongoose.connection.db] is missing, that is
    when the blob store cannot be reached. *)
Record World : Type := mkWorld {
  portfolios : gmap string Portfolio;
  gridfs : option (gmap string GridFile)
}.

Inductive Error : Type :=
| ValidationError
| OtherError (message : string).

(** A computation reads and writes the world, and returns or throws. What
    it wrote before it threw stays written. *)
Definition M (A : Type) : Type := World → (Error + A) * World.

#[global] Instance M_ret : MRet M := λ A a w, (inr a, w).

#[global] Instance M_bind : MBind M := λ A B k m w,
  match m w with
  | (inr a, w') => k a w'
  | (inl e, w') => (inl e, w')
  end.

(** [try { await m } catch (e) { console.warn(..) }] *)
Definition try_warn (m : M ()) : M () := λ w,
  match m w with
  | (_, w') => (inr (), w')
  end.

(** [try { body } catch (error) { handler }]: the response of a route. *)
Definition try_catch {A} (body : M A) (handler : Error → A) : World → A * World :=
  λ w, match body w with
       | (inr a, w') => (a, w')
       | (inl e, w') => (handler e, w')
       end.

(** *** [middleware/upload.js] *)

(** [fileId] is the identifier the driver gives the new file. *)
Definition saveToGridFS (fileId : ObjectId)
    (buffer : list Byte.byte) (filename mimetype : string) : M ObjectId := λ w,
  match gridfs w with
  | None => (inl (OtherError "MongoDB 연결이 필요합니다."), w)
  | Some bucket =>
      (inr fileId,
       mkWorld (portfolios w)
               (Some (<[fileId := mkGridFile filename mimetype buffer]> bucket)))
  end.

(** [bucket.delete] reports an error for a file that is not there. *)
Definition deleteFromGridFS (fileId : ObjectId) : M () := λ w,
  match gridfs w with
  | None => (inl (OtherError "MongoDB 연결이 필요합니다."), w)
  | Some bucket =>
      match bucket !! fileId with
      | None => (inl (OtherError "FileNotFound"), w)
      | Some _ => (inr (), mkWorld (portfolios w) (Some (delete fileId bucket)))
      end
  end.

(** *** Mongoose model operations *)

Definition findById (id : ObjectId) : M (option Portfolio) := λ w,
  (inr (portfolios w !! id), w).

Section Save.
Context `{Platform}.

(** [doc.save()]: validation, then the write. *)
Definition save (id : ObjectId) (doc : Portfolio) : M () := λ w,
  if validate doc
  then (inr (), mkWorld (<[id := doc]> (portfolios w)) (gridfs w))
  else (inl ValidationError, w).
End Save.

Definition findByIdAndDelete (id : ObjectId) : M () := λ w,
  (inr (), mkWorld (delete id (portfolios w)) (gridfs w)).

(** ** The query composer *)

(** The paths a sort object can name, and a sort object such as
    [{ featured: -1, createdAt: -1 }] as the list of its keys, in order,
    each with its direction. *)
Inductive SortPath : Type :=
| by_featured
| by_createdAt
| by_views
| by_likes
| by_title.

Definition SortSpec : Type := list (SortPath * Z).

(** The conditions object handed to [find]. *)
Record Conditions : Type := mkConditions {
  c_category : option string;          (* category: v *)
  c_tags : option (list string);       (* tags: { $in: vs } *)
  c_text : option string;              (* $text: { $search: s } *)
  c_featured : option bool             (* featured: b *)
}.

(** A Mongoose query under construction. *)
Record Query : Type := mkQuery {
  q_conditions : Conditions;
  q_sort : SortSpec;
  q_skip : nat;
  q_limit : option nat
}.

Definition find (c : Conditions) : Query := mkQuery c [] 0%nat None.

Definition sort (s : SortSpec) (q : Query) : Query :=
  mkQuery (q_conditions q) s (q_skip q) (q_limit q).

Definition skip (n : nat) (q : Query) : Query :=
  mkQuery (q_conditions q) (q_sort q) n (q_limit q).

Definition limit (n : nat) (q : Query) : Query :=
  mkQuery (q_conditions q) (q_sort q) (q_skip q) (Some n).

(** The argument of [findWithFilters]; an absent key is [None]. *)
Record Filters : Type := mkFilters {
  f_category : option string;
  f_tags : option (list string);
  f_search : option string;
  f_sort : option string;
  f_featured : option bool
}.

(** The conditions that both versions of [findWithFilters] build. *)
Definition filter_conditions (filters : Filters) : Conditions :=
  mkConditions
    (if JS.truthy_str (f_category filters) then f_category filters else None)
    (match f_tags filters with
     | Some ts => if (0 <? length ts)%nat then Some ts else None
     | None => None
     end)
    (if JS.truthy_str (f_search filters) then f_search filters else None)
    (f_featured filters).

(** [models/Portfolio.js] *)
Definition findWithFilters (filters : Filters) : Query :=
  let query := filter_conditions filters in
  let mongoQuery := find query in
  if JS.truthy_str (f_sort filters) then
    match f_sort filters with
    | Some s =>
        if bool_decide (s = "최신순") then
          sort [(by_featured, -1); (by_createdAt, -1)] mongoQuery
        else if bool_decide (s = "인기순") then
          sort [(by_featured, -1); (by_views, -1); (by_likes, -1)] mongoQuery
        else if bool_decide (s = "이름순") then
          sort [(by_featured, -1); (by_title, 1)] mongoQuery
        else if bool_decide (s = "조회순") then
          sort [(by_featured, -1); (by_views, -1)] mongoQuery
        else
          sort [(by_featured, -1); (by_createdAt, -1)] mongoQuery
    | None => sort [(by_featured, -1); (by_createdAt, -1)] mongoQuery
    end
  else
    sort [(by_featured, -1); (by_createdAt, -1)] mongoQuery.

(** The serverless entry point defines the model a second time, with its
    own [findWithFilters]. *)
Module Serverless.

Definition findWithFilters (filters : Filters) : Query :=
  let query := filter_conditions filters in
  let mongoQuery := find query in
  if JS.truthy_str (f_sort filters) then
    match f_sort filters with
    | Some s =>
        if bool_decide (s = "최신순") then
          sort [(by_createdAt, -1)] mongoQuery
        else if bool_decide (s = "인기순") then
          sort [(by_featured, -1); (by_views, -1); (by_likes, -1)] mongoQuery
        else if bool_decide (s = "이름순") then
          sort [(by_title, 1)] mongoQuery
        else if bool_decide (s = "조회순") then
          sort [(by_views, -1)] mongoQuery
        else
          sort [(by_createdAt, -1)] mongoQuery
    | None => sort [(by_createdAt, -1)] mongoQuery
    end
  else
    sort [(by_createdAt, -1)] mongoQuery.

End Serverless.

(** *** Running a query *)

(** MongoDB's order on the values of a path: [false] before [true],
    numbers by value, strings by their bytes. *)
Definition compare_path (k : SortPath) (a b : Portfolio) : comparison :=
  match k with
  | by_featured => Z.compare (Z.b2z (featured a)) (Z.b2z (featured b))
  | by_createdAt => Z.compare (createdAt a) (createdAt b)
  | by_views => Z.compare (views a) (views b)
  | by_likes => Z.compare (likes a) (likes b)
  | by_title => String.compare (title a) (title b)
  end.

(** Direction [1] is ascending and [-1] descending. *)
Definition directed (d : Z) (c : comparison) : comparison :=
  if d <? 0 then CompOpp c else c.

(** The first key that tells two documents apart decides. *)
Fixpoint compare_spec (s : SortSpec) (a b : Portfolio) : comparison :=
  match s with
  | [] => Eq
  | (k, d) :: s' =>
      match directed d (compare_path k a b) with
      | Eq => compare_spec s' a b
      | c => c
      end
  end.

Definition sort_leb (s : SortSpec) (a b : Portfolio) : bool :=
  match compare_spec s a b with Gt => false | _ => true end.

(** [a] may come before [b] in a result sorted by [s]. *)
Definition sort_le (s : SortSpec) (a b : ObjectId * Portfolio) : Prop :=
  sort_leb s a.2 b.2 = true.

#[global] Instance sort_le_dec s a b : Decision (sort_le s a b).
Proof. unfold sort_le. apply _. Defined.

Section Exec.
Context `{Platform}.

Definition tags_in (vs : list string) (p : Portfolio) : bool :=
  existsb (λ t, bool_decide (t ∈ vs)) (tags p).

Definition matches (c : Conditions) (p : Portfolio) : bool :=
  match c_category c with
  | Some v => bool_decide (category p = v)
  | None => true
  end
  && match c_tags c with
     | Some vs => tags_in vs p
     | None => true
     end
  && match c_text c with
     | Some s => text_search s (title p) (description p) (tags p)
     | None => true
     end
  && match c_featured c with
     | Some b => bool_decide (featured p = b)
     | None => true
     end.

(** The documents of the collection that meet the conditions. *)
Definition matching (c : Conditions) (w : World) : list (ObjectId * Portfolio) :=
  List.filter (λ d, matches c d.2) (map_to_list (portfolios w)).

(** [await query]: filter, sort, skip, limit. *)
Definition exec (q : Query) : M (list (ObjectId * Portfolio)) := λ w,
  let sorted := merge_sort (sort_le (q_sort q)) (matching (q_conditions q) w) in
  let skipped := drop (q_skip q) sorted in
  (inr (match q_limit q with
        | Some n => take n skipped
        | None => skipped
        end), w).

(** [await query.countDocuments()]: sort, skip and limit play no part. *)
Definition countDocuments (q : Query) : M Z := λ w,
  (inr (Z.of_nat (length (matching (q_conditions q) w))), w).
End Exec.

(** ** Instance methods *)

Section Methods.
Context `{Platform}.

(** [this.views += 1; return this.save()]. The document object is the
    one the handler holds: the method returns it as it left it. *)
Definition incrementViews (id : ObjectId) (this : Portfolio) : M Portfolio :=
  let this := set_views (views this + 1) this in
  save id this ≫= λ _, mret this.

(** [toggleLike(increment = true)] *)
Definition toggleLike (id : ObjectId) (this : Portfolio)
    (increment : JS.value) : M Portfolio :=
  let increment :=
    if JS.strict_eq increment JS.Undefined then JS.Bool true else increment in
  let this :=
    set_likes (likes this + (if JS.truthy increment then 1 else -1)) this in
  let this := if likes this <? 0 then set_likes 0 this else this in
  save id this ≫= λ _, mret this.
End Methods.

(** ** Requests and responses *)

(** [req.query] of the list route; an absent parameter is [None]. *)
Record ListParams : Type := mkListParams {
  p_category : option string;
  p_tags : option string;
  p_search : option string;
  p_sort : option string;
  p_page : option string;
  p_limit : option string;
  p_featured : option string
}.

(** The [tags] field of a body: an array, or one comma-separated string. *)
Inductive TagsField : Type :=
| TagsArray (ts : list string)
| TagsString (s : string).

(** [req.body] of the create and update routes. *)
Record Body : Type := mkBody {
  b_title : option string;
  b_description : option string;
  b_url : option string;
  b_category : option string;
  b_tags : option TagsField;
  b_featured : JS.value;
  b_imageBase64 : option string
}.

(** [req.file], as [upload.single('image')] leaves it. *)
Record File : Type := mkFile {
  buffer : list Byte.byte;
  originalname : string;
  mimetype : string
}.

Record Pagination : Type := mkPagination {
  currentPage : Z;
  totalPages : Z;
  totalItems : Z;
  itemsPerPage : Z;
  hasNext : bool;
  hasPrev : bool
}.

Inductive Data : Type :=
| NoData
| DataList (docs : list (ObjectId * Portfolio)) (pagination : Pagination)
| DataPortfolio (id : ObjectId) (doc : Portfolio)
| DataId (id : string)
| DataLikes (n : Z).

Record Response : Type := mkResponse {
  status : Z;
  success : bool;
  data : Data
}.

(** The object literals [portfolioData] and [updateData]: the keys that
    are set, with their values. *)
Record DocData : Type := mkDocData {
  d_title : option string;
  d_description : option string;
  d_url : option string;
  d_category : option string;
  d_tags : option (list string);
  d_featured : option bool;
  d_imageId : option (option ObjectId);
  d_imageBase64 : option string
}.

Definition with_imageId (v : option ObjectId) (d : DocData) : DocData :=
  mkDocData (d_title d) (d_description d) (d_url d) (d_category d)
            (d_tags d) (d_featured d) (Some v) (d_imageBase64 d).

Definition with_imageBase64 (v : string) (d : DocData) : DocData :=
  mkDocData (d_title d) (d_description d) (d_url d) (d_category d)
            (d_tags d) (d_featured d) (d_imageId d) (Some v).

Section Handlers.
Context `{Platform}.

Definition assign_key {A} (set : A → Portfolio → Portfolio)
    (v : option A) (doc : Portfolio) : Portfolio :=
  match v with
  | Some a => set a doc
  | None => doc
  end.

(** [Object.assign(portfolio, data)]: each key of [data] goes through
    the setter of its path. *)
Definition assign (doc : Portfolio) (d : DocData) : Portfolio :=
  assign_key set_imageBase64 (d_imageBase64 d)
    (assign_key set_imageId (d_imageId d)
      (assign_key set_featured (d_featured d)
        (assign_key set_tags (d_tags d)
          (assign_key set_category (d_category d)
            (assign_key set_url (d_url d)
              (assign_key set_description (d_description d)
                (assign_key set_title (d_title d) doc))))))).

(** [new Portfolio(data)]: the schema defaults, then the given keys.
    The timestamps option stamps [createdAt] when the document is first
    saved; [now] is that instant. *)
Definition new_Portfolio (now : Z) (d : DocData) : Portfolio :=
  assign (mkPortfolio "" "" "" None "" None "" [] false 0 0 now) d.

(** [featured === 'true' || featured === true] *)
Definition featured_flag (featured : JS.value) : bool :=
  JS.strict_eq featured (JS.Str "true") || JS.strict_eq featured (JS.Bool true).

(** [Array.isArray(tags) ? tags : tags.split(',').map(tag => tag.trim())] *)
Definition tags_of_field (tags : TagsField) : list string :=
  match tags with
  | TagsArray ts => ts
  | TagsString s => js_trim <$> JS.split_comma s
  end.

Definition truthy_tags (tags : option TagsField) : bool :=
  match tags with
  | Some (TagsArray _) => true
  | Some (TagsString s) => negb (bool_decide (s = ""))
  | None => false
  end.

Definition server_error : Error → Response :=
  λ _, mkResponse 500 false NoData.

(** The [catch] of the create and update routes. *)
Definition validation_or_server_error (e : Error) : Response :=
  match e with
  | ValidationError => mkResponse 400 false NoData
  | OtherError _ => mkResponse 500 false NoData
  end.

(** *** GET / *)

(** The [filters] object of the list route. *)
Definition list_filters (q : ListParams) : Filters :=
  let sort := match p_sort q with Some s => s | None => "최신순" end in
  mkFilters
    (if JS.truthy_str (p_category q) then p_category q else None)
    (match p_tags q with
     | Some tags =>
         if JS.truthy_str (Some tags) then Some (JS.split_comma tags) else None
     | None => None
     end)
    (if JS.truthy_str (p_search q) then p_search q else None)
    (if JS.truthy_str (Some sort) then Some sort else None)
    (match p_featured q with
     | Some featured => Some (bool_decide (featured = "true"))
     | None => None
     end).

(** [parseInt(page)] and [parseInt(limit)], with the defaults [1] and
    [10] of the destructuring. *)
Definition page_number (q : ListParams) : option Z :=
  match p_page q with Some s => parseInt s | None => Some 1 end.

Definition limit_number (q : ListParams) : option Z :=
  match p_limit q with Some s => parseInt s | None => Some 10 end.

(** The handler, for the page number and the limit that [parseInt]
    gave. [composer] is the model's [findWithFilters]. *)
Definition list_body (composer : Filters → Query)
    (q : ListParams) (page limit_ : Z) : M Response :=
  let filters := list_filters q in
  let query := composer filters in
  let skip_ := (page - 1) * limit_ in
  portfolios ← exec (limit (Z.to_nat limit_) (skip (Z.to_nat skip_) query));
  let totalQuery := composer filters in
  totalItems ← countDocuments totalQuery;
  let totalPages := JS.ceil_div totalItems limit_ in
  mret (mkResponse 200 true
          (DataList portfolios
             (mkPagination page totalPages totalItems limit_
                           (page <? totalPages) (1 <? page)))).

(** The route. The source leaves to the driver what happens with a page
    or a limit that is [NaN] or below 1 (a negative or undefined skip,
    a division by zero): there the model gives no answer. *)
Definition list_portfolios (composer : Filters → Query) (q : ListParams)
    (w : World) : option (Response * World) :=
  match page_number q, limit_number q with
  | Some page, Some limit_ =>
      if (1 <=? page) && (1 <=? limit_)
      then Some (try_catch (list_body composer q page limit_) server_error w)
      else None
  | _, _ => None
  end.

(** *** GET / of the serverless entry point *)

(** [initializeDefaultData]: when [countDocuments()] is 0, [insertMany]
    stores the default entries. [defaults] is the collection they make,
    with the identifiers and the creation time they are given. *)
Definition initializeDefaultData (defaults : gmap string Portfolio) : M () := λ w,
  if bool_decide (size (portfolios w) = 0%nat)
  then (inr (), mkWorld defaults (gridfs w))
  else (inr (), w).

(** The handler of [routes/portfolio.js] over again, with the composer
    of this file, once the connection is there and the default data are. *)
Definition serverless_list_portfolios (defaults : gmap string Portfolio)
    (q : ListParams) (w : World) : option (Response * World) :=
  list_portfolios Serverless.findWithFilters q
    (initializeDefaultData defaults w).2.

(** *** GET /:id *)
Definition get_portfolio (id : string) : World → Response * World :=
  try_catch
    (match castObjectId id with
     | None => mret (mkResponse 400 false NoData)
     | Some oid =>
         portfolio ← findById oid;
         match portfolio with
         | None => mret (mkResponse 404 false NoData)
         | Some portfolio =>
             portfolio ← incrementViews oid portfolio;
             mret (mkResponse 200 true (DataPortfolio oid portfolio))
         end
     end)
    server_error.

(** *** POST / *)

(** The object literal [portfolioData], before the image keys. *)
Definition portfolio_data (body : Body) : DocData :=
  mkDocData (b_title body) (b_description body) (b_url body)
            (b_category body)
            (Some (if truthy_tags (b_tags body)
                   then match b_tags body with
                        | Some tags => tags_of_field tags
                        | None => []
                        end
                   else []))
            (Some (featured_flag (b_featured body)))
            None None.

(** The image part of the creation: what it does to the bucket, and
    the key it adds to [portfolioData]. [fileId] is the identifier the
    driver gives an uploaded file. *)
Definition create_image (fileId : ObjectId)
    (body : Body) (file : option File) (portfolioData : DocData) : M DocData :=
  match file with
  | Some f =>
      fileId ← saveToGridFS fileId (buffer f) (originalname f) (mimetype f);
      mret (with_imageId (Some fileId) portfolioData)
  | None =>
      if JS.truthy_str (b_imageBase64 body)
      then mret (match b_imageBase64 body with
                 | Some imageBase64 =>
                     with_imageBase64 imageBase64 portfolioData
                 | None => portfolioData
                 end)
      else mret portfolioData
  end.

(** [oid] is the [_id] Mongoose gives the new document. *)
Definition create_portfolio (now : Z) (oid fileId : ObjectId)
    (body : Body) (file : option File) : World → Response * World :=
  try_catch
    (let portfolioData := portfolio_data body in
     portfolioData ← create_image fileId body file portfolioData;
     let portfolio := new_Portfolio now portfolioData in
     _ ← save oid portfolio;
     mret (mkResponse 201 true (DataPortfolio oid portfolio)))
    validation_or_server_error.

(** *** PUT /:id *)

(** The object [updateData], before the image keys: a key for each
    field of the body that is not [undefined]. *)
Definition update_data (body : Body) : DocData :=
  mkDocData (b_title body) (b_description body) (b_url body)
            (b_category body)
            (tags_of_field <$> b_tags body)
            (if JS.strict_eq (b_featured body) JS.Undefined
             then None
             else Some (featured_flag (b_featured body)))
            None None.

(** The image part of the update: what it does to the bucket, and the
    keys it adds to [updateData]. *)
Definition update_image (portfolio : Portfolio) (fileId : ObjectId)
    (body : Body) (file : option File) (updateData : DocData) : M DocData :=
  match file with
  | Some f =>
      _ ← match imageId portfolio with
          | Some old => try_warn (deleteFromGridFS old)
          | None => mret ()
          end;
      fileId ← saveToGridFS fileId (buffer f) (originalname f) (mimetype f);
      mret (with_imageBase64 "" (with_imageId (Some fileId) updateData))
  | None =>
      if JS.truthy_str (b_imageBase64 body) then
        let updateData :=
          match b_imageBase64 body with
          | Some imageBase64 => with_imageBase64 imageBase64 updateData
          | None => updateData
          end in
        match imageId portfolio with
        | Some old =>
            _ ← try_warn (deleteFromGridFS old);
            mret (with_imageId None updateData)
        | None => mret updateData
        end
      else mret updateData
  end.

Definition update_portfolio (fileId : ObjectId) (id : string)
    (body : Body) (file : option File) : World → Response * World :=
  try_catch
    (match castObjectId id with
     | None => mret (mkResponse 400 false NoData)
     | Some oid =>
         portfolio ← findById oid;
         match portfolio with
         | None => mret (mkResponse 404 false NoData)
         | Some portfolio =>
             let updateData := update_data body in
             updateData ← update_image portfolio fileId body file updateData;
             let portfolio := assign portfolio updateData in
             _ ← save oid portfolio;
             mret (mkResponse 200 true (DataPortfolio oid portfolio))
         end
     end)
    validation_or_server_error.

(** *** DELETE /:id *)
Definition delete_portfolio (id : string) : World → Response * World :=
  try_catch
    (match castObjectId id with
     | None => mret (mkResponse 400 false NoData)
     | Some oid =>
         portfolio ← findById oid;
         match portfolio with
         | None => mret (mkResponse 404 false NoData)
         | Some portfolio =>
             _ ← match imageId portfolio with
                 | Some fileId => try_warn (deleteFromGridFS fileId)
                 | None => mret ()
                 end;
             _ ← findByIdAndDelete oid;
             mret (mkResponse 200 true (DataId id))
         end
     end)
    server_error.

(** *** POST /:id/like *)

(** [increment] is the field of the body; [undefined] when absent. *)
Definition like_portfolio (id : string) (increment : JS.value)
    : World → Response * World :=
  let increment :=
    if JS.strict_eq increment JS.Undefined then JS.Bool true else increment in
  try_catch
    (match castObjectId id with
     | None => mret (mkResponse 400 false NoData)
     | Some oid =>
         portfolio ← findById oid;
         match portfolio with
         | None => mret (mkResponse 404 false NoData)
         | Some portfolio =>
             portfolio ← toggleLike oid portfolio increment;
             mret (mkResponse 200 true (DataLikes (likes portfolio)))
         end
     end)
    server_error.
End Handlers.

(** ** Notions the properties are stated with *)

(** A three-way comparison that behaves like the comparison of a total
    preorder. *)
Record CmpOrder {A} (cmp : A → A → comparison) : Prop := mkCmpOrder {
  cmp_antisym : ∀ a b, cmp a b = CompOpp (cmp b a);
  cmp_trans : ∀ a b c x, cmp a b = x → cmp b c = x → cmp a c = x;
  cmp_eq_l : ∀ a b c, cmp a b = Eq → cmp a c = cmp b c
}.

(** The secondary key of each sort mode, as the specification lists
    them: creation time descending; views then likes descending; title
    ascending; views descending; creation time descending by default. *)
Definition secondary_key (mode : option string) : SortSpec :=
  match mode with
  | Some "최신순" => [(by_createdAt, -1)]
  | Some "인기순" => [(by_views, -1); (by_likes, -1)]
  | Some "이름순" => [(by_title, 1)]
  | Some "조회순" => [(by_views, -1)]
  | _ => [(by_createdAt, -1)]
  end.

(** The precedence as the specification words it, with the bare path
    [/portfolio/image/<id>] for a blob reference. *)
Definition spec_imageUrl (p : Portfolio) : string :=
  if bool_decide (imageBase64 p = "") then
    match imageId p with
    | Some fid => "/portfolio/image/" +:+ fid
    | None => image p
    end
  else imageBase64 p.

(** The value [toggleLike] leaves in [likes]. *)
Definition toggled (n : Z) (increment : bool) : Z :=
  let n := n + (if increment then 1 else -1) in
  if n <? 0 then 0 else n.

(** The bucket once any file [old] names is gone. *)
Definition without (old : option ObjectId) (bucket : gmap string GridFile)
    : gmap string GridFile :=
  match old with
  | Some fid => delete fid bucket
  | None => bucket
  end.

Section Runs.
Context `{Platform}.

(** All matching documents, in the order of the composed sort. *)
Definition sorted_matching (composer : Filters → Query)
    (q : ListParams) (w : World) : list (ObjectId * Portfolio) :=
  let query := composer (list_filters q) in
  merge_sort (sort_le (q_sort query)) (matching (q_conditions query) w).

(** The like route called once for each flag of [incs], in order. *)
Definition like_all (id : string) (incs : list bool) (w : World) : World :=
  foldl (λ w inc, (like_portfolio id (JS.Bool inc) w).2) w incs.

(** GET /:id called [n] times in a row. *)
Definition read_times (id : string) (n : nat) (w : World) : World :=
  Nat.iter n (λ w, (get_portfolio id w).2) w.
End Runs.

(** ** A platform and a collection to run the handlers on

    [trim] has nothing to strip in the strings used below, every URL
    parses, [parseInt] reads plain decimal numerals, an ObjectId is any
    string of 24 characters, and no request below carries a search. *)
Module Sample.

Fixpoint digits (acc : Z) (s : string) : option Z :=
  match s with
  | EmptyString => Some acc
  | String c s' =>
      let n := Z.of_N (N_of_ascii c) - 48 in
      if (0 <=? n) && (n <=? 9) then digits (10 * acc + n) s' else None
  end.

Definition decimal (s : string) : option Z :=
  match s with
  | EmptyString => None
  | _ => digits 0 s
  end.

#[export] Instance platform : Platform := {|
  js_trim := λ s, s;
  url_parses := λ _, true;
  parseInt := decimal;
  castObjectId := λ s, if (String.length s =? 24)%nat then Some s else None;
  text_search := λ _ _ _ _, true
|}.

Definition id1 : ObjectId := "650000000000000000000001".
Definition id2 : ObjectId := "650000000000000000000002".
Definition id3 : ObjectId := "650000000000000000000003".
Definition blob1 : ObjectId := "65000000000000000000f001".
Definition blob2 : ObjectId := "65000000000000000000f002".

(** Two entries of the default data of [initializeDefaultData]: a
    featured one, and the one that is not featured, created later. *)
Definition api_hub : Portfolio :=
  mkPortfolio "API Hub" "API discovery" "API 허브.png" None ""
              (Some "https://apihub.world/") "플랫폼" ["API"; "플랫폼"]
              true 0 0 1000.

Definition culf_ai : Portfolio :=
  mkPortfolio "CULF AI" "Content curation" "Culf.png" None ""
              (Some "https://culf.ai/") "AI/ML" ["큐레이션"; "AI"]
              false 0 0 2000.

Definition two_entries : World :=
  mkWorld (<[id1 := api_hub]> (<[id2 := culf_ai]> ∅)) (Some ∅).

Definition no_params : ListParams :=
  mkListParams None None None None None None None.

Definition png : File :=
  mkFile [Byte.x89; Byte.x50; Byte.x4e; Byte.x47] "logo.png" "image/png".

Definition empty_body : Body :=
  mkBody None None None None None JS.Undefined None.

End Sample.

Module SampleUpdate.
Import Sample.

(** An entry that holds a blob reference, and the bucket with the blob. *)
Definition with_blob : World :=
  mkWorld (<[id3 := set_imageId (Some blob1) culf_ai]> ∅)
          (Some (<[blob1 := mkGridFile "old.png" "image/png" []]> ∅)).

(** The same entry when the blob store is out of reach. *)
Definition unreachable : World :=
  mkWorld (<[id3 := set_imageId (Some blob1) culf_ai]> ∅) None.

Definition upload : Response * World :=
  @update_portfolio platform blob2 id3 empty_body (Some png) with_blob.

Definition inline_body : Body :=
  mkBody None None None None None JS.Undefined
         (Some "data:image/png;base64,iVBORw0KGgo=").

Definition inline : Response * World :=
  @update_portfolio platform blob2 id3 inline_body None with_blob.
End SampleUpdate.

Module SamplePatch.
Import Sample.

(** A body that renames the entry and carries nothing else. *)
Definition rename : Body :=
  mkBody (Some "CULF") None None None None JS.Undefined None.

Definition renamed : Response * World :=
  @update_portfolio platform blob2 id2 rename None two_entries.
End SamplePatch.

Module SampleCreate.
Import Sample.

Definition empty_world : World := mkWorld ∅ (Some ∅).

(** A body with the required fields and the given [featured]. *)
Definition new_body (featured : JS.value) : Body :=
  mkBody (Some "Bench") (Some "LLM benchmark") None (Some "벤치마크")
         (Some (TagsString "LLM,분석")) featured None.

Definition created (featured : JS.value) : Response * World :=
  @create_portfolio platform 3000 id3 blob2 (new_body featured) None
    empty_world.
End SampleCreate.

(** ** The remaining routes and helpers *)

(** *** [middleware/upload.js], reading *)

(** [getFromGridFS]: the bytes of the file, or the error of the download
    stream when there is no such file. *)
Definition getFromGridFS (fileId : ObjectId) : M (list Byte.byte) := λ w,
  match gridfs w with
  | None => (inl (OtherError "MongoDB 연결이 필요합니다."), w)
  | Some bucket =>
      match bucket !! fileId with
      | None => (inl (OtherError "FileNotFound"), w)
      | Some file => (inr (content file), w)
      end
  end.

(** [getFileInfo]: the first file document with this [_id]. *)
Definition getFileInfo (fileId : ObjectId) : M GridFile := λ w,
  match gridfs w with
  | None => (inl (OtherError "MongoDB 연결이 필요합니다."), w)
  | Some bucket =>
      match bucket !! fileId with
      | None => (inl (OtherError "파일을 찾을 수 없습니다."), w)
      | Some file => (inr file, w)
      end
  end.

(** *** GET /image/:fileId *)

(** What the image route sends: a JSON error with its status, or the
    bytes under the three headers it sets. *)
Inductive ImageResponse : Type :=
| ImageError (status : Z)
| ImageSent (content_type : string) (content_length : Z)
            (cache_control : string) (body : list Byte.byte).

Section ImageRoute.
Context `{Platform}.

Definition get_image (fileId : string) : World → ImageResponse * World :=
  try_catch
    (match castObjectId fileId with
     | None => mret (ImageError 400)
     | Some oid =>
         fileInfo ← getFileInfo oid;
         imageBuffer ← getFromGridFS oid;
         mret (ImageSent (contentType fileInfo)
                         (Z.of_nat (length imageBuffer))
                         "public, max-age=31536000"
                         imageBuffer)
     end)
    (λ _, ImageError 404).
End ImageRoute.

(** *** GET /stats/summary *)

(** A [$group] by a text key with [count: { $sum: 1 }]: one row for each
    distinct key, with the number of times it occurs. *)
Definition group_count (keys : list string) : list (string * Z) :=
  (λ k, (k, Z.of_nat (count_occ String.string_dec keys k))) <$> remove_dups keys.

(** [$sort: { count: -1 }] *)
Definition count_ge (a b : string * Z) : Prop := b.2 <= a.2.

#[global] Instance count_ge_dec a b : Decision (count_ge a b).
Proof. unfold count_ge. apply _. Defined.

(** [$unwind: '$tags']: one row for each tag of each document. *)
Definition unwind_tags (docs : list (ObjectId * Portfolio)) : list string :=
  docs ≫= (λ d, tags d.2).

Record Stats : Type := mkStats {
  totalPortfolios : Z;
  featuredPortfolios : Z;
  categoryStats : list (string * Z);
  popularTags : list (string * Z);
  topViewedPortfolios : list (ObjectId * (string * Z))
}.

Section StatsRoute.
Context `{Platform}.

Definition no_conditions : Conditions := mkConditions None None None None.

(** [Portfolio.aggregate([{ $group: .. '$category' .. }, { $sort: .. }])] *)
Definition aggregate_categories : M (list (string * Z)) := λ w,
  (inr (merge_sort count_ge
          (group_count ((λ d, category d.2) <$> map_to_list (portfolios w)))),
   w).

(** [Portfolio.aggregate([{ $unwind }, { $group }, { $sort }, { $limit: 10 }])] *)
Definition aggregate_tags : M (list (string * Z)) := λ w,
  (inr (take 10
          (merge_sort count_ge
             (group_count (unwind_tags (map_to_list (portfolios w)))))),
   w).

(** [.select('title views')] *)
Definition select_title_views (d : ObjectId * Portfolio)
    : ObjectId * (string * Z) :=
  (d.1, (title d.2, views d.2)).

Definition stats_summary : World → (Z + Stats) * World :=
  try_catch
    (totalCount ← countDocuments (find no_conditions);
     featuredCount ←
       countDocuments (find (mkConditions None None None (Some true)));
     categories ← aggregate_categories;
     allTags ← aggregate_tags;
     topViewed ← exec (limit 5 (sort [(by_views, -1)] (find no_conditions)));
     mret (inr (mkStats totalCount featuredCount categories allTags
                        (select_title_views <$> topViewed))))
    (λ _, inl 500).
End StatsRoute.

(** *** The routes of the serverless entry point *)

(** [api/portfolio/index.js] defines its own create, update and delete
    routes; its schema has no [imageId] and it never touches GridFS. Each
    route awaits [connectDB()] first, taken to succeed here. *)
Module ServerlessApi.
Section Routes.
Context `{Platform}.

(** POST / *)
Definition create_portfolio (now : Z) (oid : ObjectId) (body : Body)
    : World → Response * World :=
  try_catch
    (let portfolioData := portfolio_data body in
     let portfolioData :=
       if JS.truthy_str (b_imageBase64 body)
       then match b_imageBase64 body with
            | Some imageBase64 => with_imageBase64 imageBase64 portfolioData
            | None => portfolioData
            end
       else portfolioData in
     let portfolio := new_Portfolio now portfolioData in
     _ ← save oid portfolio;
     mret (mkResponse 201 true (DataPortfolio oid portfolio)))
    validation_or_server_error.

(** PUT /:id *)
Definition update_portfolio (id : string) (body : Body)
    : World → Response * World :=
  try_catch
    (match castObjectId id with
     | None => mret (mkResponse 400 false NoData)
     | Some oid =>
         portfolio ← findById oid;
         match portfolio with
         | None => mret (mkResponse 404 false NoData)
         | Some portfolio =>
             let updateData := update_data body in
             let updateData :=
               match b_imageBase64 body with
               | Some imageBase64 => with_imageBase64 imageBase64 updateData
               | None => updateData
               end in
             let portfolio := assign portfolio updateData in
             _ ← save oid portfolio;
             mret (mkResponse 200 true (DataPortfolio oid portfolio))
         end
     end)
    validation_or_server_error.

(** DELETE /:id *)
Definition delete_portfolio (id : string) : World → Response * World :=
  try_catch
    (match castObjectId id with
     | None => mret (mkResponse 400 false NoData)
     | Some oid =>
         portfolio ← findById oid;
         match portfolio with
         | None => mret (mkResponse 404 false NoData)
         | Some portfolio =>
             _ ← findByIdAndDelete oid;
             mret (mkResponse 200 true (DataId id))
         end
     end)
    server_error.
End Routes.
End ServerlessApi.

(** ** Notions for the further properties *)

(** Every stored document passes the validators of the schema. *)
Definition valid_world `{Platform} (w : World) : Prop :=
  map_Forall (λ _ p, validate p = true) (portfolios w).

(** The documents of page [p] when [l] are shown per page. *)
Definition page_of {A} (l p : nat) (all : list A) : list A :=
  take l (drop ((p - 1) * l) all).

(** Pages [1] to [n], one after the other. *)
Definition pages_upto {A} (l n : nat) (all : list A) : list A :=
  seq 1 n ≫= (λ p, page_of l p all).

(** The sum of the counts of the rows of an aggregation. *)
Definition total_count (rows : list (string * Z)) : Z :=
  foldr (λ r acc, r.2 + acc) 0 rows.

(** What the like route takes [increment] for: [true] when the field is
    absent, its truthiness otherwise. *)
Definition increment_flag (increment : JS.value) : bool :=
  if JS.strict_eq increment JS.Undefined then true else JS.truthy increment.

(** ** The contact-form mail relay *)

(** [api/send-email.js] (a serverless function) and the route
    [/api/send-email] of [server.js]. What the mail provider does with a
    message is its own affair: [accepts] says whether [sendMail] resolves,
    and the messages it took are kept in the outbox. *)
Module Mail.

(** The fields of [req.body]; an absent one is [None]. *)
Record Form : Type := mkForm {
  company : option string;
  name : option string;
  phone : option string;
  email : option string;
  project_type : option string;
  message : option string
}.

(** [process.env] *)
Record Env : Type := mkEnv {
  GMAIL_USER : option string;
  GMAIL_APP_PASSWORD : option string
}.

Record MailOptions : Type := mkMailOptions {
  mail_from : string;
  mail_to : string;
  subject : string;
  html : string
}.

(** What the handler answers: the status, and the [success] and
    [message] of the JSON body when there is one. *)
Record Answer : Type := mkAnswer {
  code : Z;
  ok : option bool;
  text : option string
}.

Definition nl : string := String (ascii_of_nat 10) EmptyString.

(** [`${x}`] for a field that is a string or [undefined]. *)
Definition interpolate (x : option string) : string :=
  match x with
  | Some s => s
  | None => "undefined"
  end.

(** [message.replace(/\n/g, '<br>')] *)
Fixpoint nl2br (s : string) : string :=
  match s with
  | EmptyString => EmptyString
  | String c s' =>
      if bool_decide (c = ascii_of_nat 10) then "<br>" +:+ nl2br s'
      else String c (nl2br s')
  end.

(** The object [mailOptions], for a message that is a string. *)
Definition mailOptions (user : string) (body : Form) (message : string)
    : MailOptions :=
  mkMailOptions user user
    ("[포너즈] " +:+ interpolate (company body) +:+ " - "
       +:+ interpolate (project_type body) +:+ " 문의")
    (nl
  +:+ "                <h2>포너즈 웹사이트 문의</h2>"
  +:+ nl
  +:+ "                <p><strong>회사명:</strong> "
  +:+ interpolate (company body)
  +:+ "</p>"
  +:+ nl
  +:+ "                <p><strong>담당자명:</strong> "
  +:+ interpolate (name body)
  +:+ "</p>"
  +:+ nl
  +:+ "                <p><strong>연락처:</strong> "
  +:+ interpolate (phone body)
  +:+ "</p>"
  +:+ nl
  +:+ "                <p><strong>이메일:</strong> "
  +:+ interpolate (email body)
  +:+ "</p>"
  +:+ nl
  +:+ "                <p><strong>프로젝트 유형:</strong> "
  +:+ interpolate (project_type body)
  +:+ "</p>"
  +:+ nl
  +:+ "                <p><strong>프로젝트 설명:</strong></p>"
  +:+ nl
  +:+ "                <p>"
  +:+ nl2br message
  +:+ "</p>"
  +:+ nl
  +:+ "                <hr>"
  +:+ nl
  +:+ "                <p><small>이 메일은 포너즈 웹사이트의 문의 폼을 통해 발송되었습니다.</small></p>"
  +:+ nl
  +:+ "            ").

(** The [try] block from the point where the credentials are known to
    be there: [message.replace] throws on [undefined], [sendMail] rejects
    a message the provider does not take; either way the [catch] answers
    500. *)
Definition send (accepts : MailOptions → bool) (user : string) (body : Form)
    (outbox : list MailOptions) : Answer * list MailOptions :=
  match message body with
  | None => (mkAnswer 500 (Some false) (Some "이메일 전송에 실패했습니다."), outbox)
  | Some message =>
      let mail := mailOptions user body message in
      if accepts mail
      then (mkAnswer 200 (Some true) (Some "문의가 성공적으로 전송되었습니다!"),
            outbox ++ [mail])
      else (mkAnswer 500 (Some false) (Some "이메일 전송에 실패했습니다."),
            outbox)
  end.

(** [GMAIL_USER && GMAIL_APP_PASSWORD]: the user, when both are set and
    not empty. *)
Definition credentials (env : Env) : option string :=
  if JS.truthy_str (GMAIL_USER env) && JS.truthy_str (GMAIL_APP_PASSWORD env)
  then GMAIL_USER env
  else None.

(** The serverless function. *)
Definition handler (accepts : MailOptions → bool) (env : Env)
    (method : string) (body : Form) (outbox : list MailOptions)
    : Answer * list MailOptions :=
  if bool_decide (method = "OPTIONS") then (mkAnswer 200 None None, outbox)
  else if negb (bool_decide (method = "POST"))
  then (mkAnswer 405 None (Some "Method not allowed"), outbox)
  else
    match credentials env with
    | None =>
        (mkAnswer 500 (Some false) (Some "이메일 전송에 실패했습니다."), outbox)
    | Some user => send accepts user body outbox
    end.

(** The route [app.post('/api/send-email', ..)] of [server.js]; the
    transporter is there when the credentials were there at start-up. *)
Definition route (accepts : MailOptions → bool) (env : Env)
    (body : Form) (outbox : list MailOptions) : Answer * list MailOptions :=
  match credentials env with
  | None =>
      (mkAnswer 500 (Some false) (Some "이메일 서비스가 설정되지 않았습니다."),
       outbox)
  | Some user => send accepts user body outbox
  end.

(** The number of line feeds in a text. *)
Fixpoint line_feeds (s : string) : nat :=
  match s with
  | EmptyString => 0
  | String c s' =>
      (if bool_decide (c = ascii_of_nat 10) then 1 else 0) + line_feeds s'
  end.

(** The characters of a text. *)
Fixpoint chars (s : string) : list ascii :=
  match s with
  | EmptyString => []
  | String c s' => c :: chars s'
  end.

End Mail.

(** A form as the contact page sends it, with a message of two lines. *)
Module SampleMail.
Import Mail.


Definition env : Env := mkEnv (Some "owner@example.com") (Some "app-password").

(** A provider that takes every message. *)
Definition accepts : MailOptions → bool := λ _, true.

End SampleMail.

(** * Properties *)

(** ** Sorting: the order of a sort object *)

Lemma cmp_eq_r {A} (cmp : A → A → comparison) :
  CmpOrder cmp → ∀ a b c, cmp b c = Eq → cmp a c = cmp a b.
Proof.
  intros O a b c Hbc.
  rewrite (cmp_antisym _ O a c), (cmp_antisym _ O a b). f_equal.
  symmetry. apply (cmp_eq_l _ O). exact Hbc.
Qed.

Lemma cmp_le_trans {A} (cmp : A → A → comparison) :
  CmpOrder cmp → ∀ a b c, cmp a b ≠ Gt → cmp b c ≠ Gt → cmp a c ≠ Gt.
Proof.
  intros O a b c Hab Hbc.
  destruct (cmp a b) eqn:E1; [| |congruence].
  - rewrite (cmp_eq_l _ O a b c E1). exact Hbc.
  - destruct (cmp b c) eqn:E2; [| |congruence].
    + rewrite (cmp_eq_r _ O a b c E2), E1. discriminate.
    + rewrite (cmp_trans _ O a b c Lt E1 E2). discriminate.
Qed.

Lemma Z_compare_order : CmpOrder Z.compare.
Proof.
  split.
  - intros a b. apply Z.compare_antisym.
  - intros a b c x Hab Hbc. destruct x.
    + apply Z.compare_eq in Hab, Hbc. subst. apply Z.compare_refl.
    + rewrite Z.compare_lt_iff in *. lia.
    + rewrite Z.compare_gt_iff in *. lia.
  - intros a b c Hab. apply Z.compare_eq in Hab. now subst.
Qed.

Lemma ascii_compare_lt_trans (a b c : ascii) :
  Ascii.compare a b = Lt → Ascii.compare b c = Lt → Ascii.compare a c = Lt.
Proof.
  unfold Ascii.compare. rewrite !N.compare_lt_iff. lia.
Qed.

Lemma string_compare_refl (s : string) : String.compare s s = Eq.
Proof.
  induction s as [|c s IH]; simpl; [reflexivity|].
  unfold Ascii.compare. now rewrite N.compare_refl.
Qed.

Lemma string_compare_lt_trans (s1 s2 s3 : string) :
  String.compare s1 s2 = Lt → String.compare s2 s3 = Lt →
  String.compare s1 s3 = Lt.
Proof.
  revert s2 s3. induction s1 as [|c1 s1 IH]; intros [|c2 s2] [|c3 s3];
    simpl; try congruence.
  destruct (Ascii.compare c1 c2) eqn:E12; try congruence;
    destruct (Ascii.compare c2 c3) eqn:E23; try congruence; intros H12 H23.
  - apply Ascii.compare_eq_iff in E12, E23. subst.
    unfold Ascii.compare. rewrite N.compare_refl. eauto.
  - apply Ascii.compare_eq_iff in E12. subst. now rewrite E23.
  - apply Ascii.compare_eq_iff in E23. subst. now rewrite E12.
  - now rewrite (ascii_compare_lt_trans _ _ _ E12 E23).
Qed.

Lemma string_compare_order : CmpOrder String.compare.
Proof.
  split.
  - intros a b. apply String.compare_antisym.
  - intros a b c x Hab Hbc. destruct x.
    + apply String.compare_eq_iff in Hab, Hbc. subst.
      apply string_compare_refl.
    + eapply string_compare_lt_trans; eauto.
    + rewrite String.compare_antisym in Hab, Hbc |- *.
      apply (f_equal CompOpp) in Hab, Hbc.
      rewrite CompOpp_involutive in Hab, Hbc. simpl in Hab, Hbc.
      now rewrite (string_compare_lt_trans _ _ _ Hbc Hab).
  - intros a b c Hab. apply String.compare_eq_iff in Hab. now subst.
Qed.

(** Comparing documents through a value they carry. *)
Lemma cmp_order_on {A B} (key : B → A) (cmp : A → A → comparison) :
  CmpOrder cmp → CmpOrder (λ a b, cmp (key a) (key b)).
Proof.
  intros O. split; intros.
  - apply (cmp_antisym _ O).
  - eapply (cmp_trans _ O); eauto.
  - now apply (cmp_eq_l _ O).
Qed.

Lemma cmp_order_opp {A} (cmp : A → A → comparison) :
  CmpOrder cmp → CmpOrder (λ a b, CompOpp (cmp a b)).
Proof.
  intros O. split.
  - intros a b. f_equal. apply (cmp_antisym _ O).
  - intros a b c x Hab Hbc.
    apply (f_equal CompOpp) in Hab, Hbc. rewrite CompOpp_involutive in Hab, Hbc.
    rewrite (cmp_trans _ O a b c _ Hab Hbc). apply CompOpp_involutive.
  - intros a b c Hab. f_equal. apply (cmp_eq_l _ O).
    apply (f_equal CompOpp) in Hab. now rewrite CompOpp_involutive in Hab.
Qed.

(** One key after another. *)
Lemma cmp_order_lex {A} (c1 c2 : A → A → comparison) :
  CmpOrder c1 → CmpOrder c2 →
  CmpOrder (λ a b, match c1 a b with Eq => c2 a b | c => c end).
Proof.
  intros O1 O2. split.
  - intros a b. rewrite (cmp_antisym _ O1 a b), (cmp_antisym _ O2 a b).
    now destruct (c1 b a).
  - intros a b c x Hab Hbc.
    destruct (c1 a b) eqn:E1.
    + rewrite (cmp_eq_l _ O1 a b c E1).
      destruct (c1 b c) eqn:E2; [|congruence..].
      eapply (cmp_trans _ O2); eauto.
    + subst x. destruct (c1 b c) eqn:E2; [| |congruence].
      * now rewrite (cmp_eq_r _ O1 a b c E2), E1.
      * now rewrite (cmp_trans _ O1 a b c Lt E1 E2).
    + subst x. destruct (c1 b c) eqn:E2; [|congruence|].
      * now rewrite (cmp_eq_r _ O1 a b c E2), E1.
      * now rewrite (cmp_trans _ O1 a b c Gt E1 E2).
  - intros a b c Hab. destruct (c1 a b) eqn:E1; [|congruence..].
    rewrite (cmp_eq_l _ O1 a b c E1), (cmp_eq_l _ O2 a b c Hab). reflexivity.
Qed.

Lemma compare_path_order (k : SortPath) : CmpOrder (compare_path k).
Proof.
  destruct k; simpl.
  - apply (cmp_order_on (λ p, Z.b2z (featured p))), Z_compare_order.
  - apply (cmp_order_on createdAt), Z_compare_order.
  - apply (cmp_order_on views), Z_compare_order.
  - apply (cmp_order_on likes), Z_compare_order.
  - apply (cmp_order_on title), string_compare_order.
Qed.

Lemma directed_order (k : SortPath) (d : Z) :
  CmpOrder (λ a b, directed d (compare_path k a b)).
Proof.
  unfold directed. destruct (d <? 0).
  - apply cmp_order_opp, compare_path_order.
  - apply compare_path_order.
Qed.

Lemma compare_spec_order (s : SortSpec) : CmpOrder (compare_spec s).
Proof.
  induction s as [|[k d] s IH]; simpl.
  - split; intros; simpl; congruence.
  - apply (cmp_order_lex (λ a b, directed d (compare_path k a b))); auto.
    apply directed_order.
Qed.

#[global] Instance sort_le_total (s : SortSpec) : Total (sort_le s).
Proof.
  intros a b. unfold sort_le, sort_leb.
  rewrite (cmp_antisym _ (compare_spec_order s) a.2 b.2).
  destruct (compare_spec s b.2 a.2); simpl; auto.
Qed.

#[global] Instance sort_le_trans (s : SortSpec) : Transitive (sort_le s).
Proof.
  intros a b c. unfold sort_le, sort_leb. intros Hab Hbc.
  pose proof (cmp_le_trans _ (compare_spec_order s) a.2 b.2 c.2) as T.
  destruct (compare_spec s a.2 b.2); try discriminate;
    destruct (compare_spec s b.2 c.2); try discriminate;
    destruct (compare_spec s a.2 c.2); try reflexivity;
    exfalso; apply T; congruence.
Qed.

(** ** Sorting: what a query returns *)

Lemma StronglySorted_lookup_lt {A} (R : relation A) (l : list A) i j a b :
  StronglySorted R l → (i < j)%nat →
  l !! i = Some a → l !! j = Some b → R a b.
Proof.
  intros Hs. revert i j. induction Hs as [|x l Hs IH Hall]; intros i j Hij Hi Hj.
  - discriminate.
  - destruct j as [|j]; [lia|]. destruct i as [|i]; simpl in *.
    + injection Hi as <-. rewrite Forall_forall in Hall.
      apply Hall. eapply list_elem_of_lookup_2, Hj.
    + apply (IH i j); [lia|assumption..].
Qed.

Lemma StronglySorted_drop {A} (R : relation A) (l : list A) n :
  StronglySorted R l → StronglySorted R (drop n l).
Proof.
  intros Hs. rewrite <-(take_drop n l) in Hs.
  eapply StronglySorted_app_1_r, Hs.
Qed.

Lemma StronglySorted_take {A} (R : relation A) (l : list A) n :
  StronglySorted R l → StronglySorted R (take n l).
Proof.
  intros Hs. rewrite <-(take_drop n l) in Hs.
  eapply StronglySorted_app_1_l, Hs.
Qed.

Section ExecSorted.
Context `{Platform}.

(** Whatever is skipped and however many are kept, the documents come
    out in the order of the sort object. *)
Lemma exec_StronglySorted (q : Query) (w : World) :
  ∃ r, exec q w = (inr r, w) ∧ StronglySorted (sort_le (q_sort q)) r.
Proof.
  unfold exec. eexists. split; [reflexivity|].
  destruct (q_limit q).
  - apply StronglySorted_take, StronglySorted_drop,
      StronglySorted_merge_sort; apply _.
  - apply StronglySorted_drop, StronglySorted_merge_sort; apply _.
Qed.

(** Every document that comes out meets the conditions and is in the
    collection. *)
Lemma exec_matching (q : Query) (w : World) r w' d :
  exec q w = (inr r, w') → d ∈ r →
  portfolios w !! d.1 = Some d.2 ∧ matches (q_conditions q) d.2 = true.
Proof.
  unfold exec. intros [= <- <-] Hd.
  assert (d ∈ matching (q_conditions q) w) as Hm.
  { rewrite <-(merge_sort_Permutation (sort_le (q_sort q))).
    destruct (q_limit q).
    - eapply subseteq_drop, subseteq_take, Hd.
    - eapply subseteq_drop, Hd. }
  unfold matching in Hm. apply list_elem_of_In, filter_In in Hm.
  destruct Hm as [Hin Hm]. split; [|exact Hm].
  apply list_elem_of_In, elem_of_map_to_list' in Hin. exact Hin.
Qed.
End ExecSorted.

(** With [featured: -1] as first key, featured documents come first, and
    among documents with the same flag the remaining keys decide. *)
Lemma featured_first_le (s : SortSpec) (a b : ObjectId * Portfolio) :
  sort_le ((by_featured, -1) :: s) a b →
  (featured b.2 = true → featured a.2 = true)
  ∧ (featured a.2 = featured b.2 → sort_le s a b).
Proof.
  unfold sort_le, sort_leb. simpl. unfold directed. simpl.
  destruct (featured a.2), (featured b.2); simpl; intros Hle;
    split; try congruence; intros _; exact Hle.
Qed.

(** In [models/Portfolio.js] every branch of the switch sorts by
    [featured: -1] and then by the mode's secondary key. *)
Lemma findWithFilters_sort (filters : Filters) :
  q_sort (findWithFilters filters)
  = (by_featured, -1) :: secondary_key (f_sort filters).
Proof.
  unfold findWithFilters, secondary_key.
  destruct (f_sort filters) as [s|]; simpl; [|reflexivity].
  destruct (bool_decide (s = "")) eqn:E0; simpl.
  { apply bool_decide_eq_true in E0. subst. reflexivity. }
  repeat case_bool_decide; subst; try reflexivity; try congruence.
  repeat (match goal with
          | |- context [match ?x with _ => _ end] => destruct x; try reflexivity
          end); congruence.
Qed.

Lemma findWithFilters_conditions (filters : Filters) :
  q_conditions (findWithFilters filters) = filter_conditions filters.
Proof.
  unfold findWithFilters.
  destruct (JS.truthy_str (f_sort filters)); [|reflexivity].
  destruct (f_sort filters); [|reflexivity].
  repeat case_bool_decide; reflexivity.
Qed.

(** ** GET /: what the route answers *)

Section ListRoute.
Context `{Platform}.

Lemma list_portfolios_eq composer q w page limit_ :
  page_number q = Some page → limit_number q = Some limit_ →
  1 <= page → 1 <= limit_ →
  list_portfolios composer q w
  = Some (mkResponse 200 true
            (DataList
               (take (Z.to_nat limit_)
                  (drop (Z.to_nat ((page - 1) * limit_))
                     (sorted_matching composer q w)))
               (let totalItems :=
                  Z.of_nat (length (matching
                    (q_conditions (composer (list_filters q))) w)) in
                mkPagination page (JS.ceil_div totalItems limit_)
                  totalItems limit_
                  (page <? JS.ceil_div totalItems limit_) (1 <? page))),
          w).
Proof.
  intros Hp Hl Hp1 Hl1. unfold list_portfolios. rewrite Hp, Hl.
  destruct (Z.leb_spec 1 page); [|lia].
  destruct (Z.leb_spec 1 limit_); [|lia]. reflexivity.
Qed.

(** A response of the route is a success carrying the page of documents. *)
Lemma list_portfolios_inv composer q w r w' :
  list_portfolios composer q w = Some (r, w') →
  ∃ page limit_,
    page_number q = Some page ∧ limit_number q = Some limit_
    ∧ 1 <= page ∧ 1 <= limit_.
Proof.
  unfold list_portfolios.
  destruct (page_number q) as [page|]; [|discriminate].
  destruct (limit_number q) as [limit_|]; [|discriminate].
  destruct (Z.leb_spec 1 page); [|discriminate].
  destruct (Z.leb_spec 1 limit_); [|discriminate].
  intros _. exists page, limit_. auto.
Qed.
End ListRoute.

Lemma ceil_div_bounds (a b : Z) :
  0 < b → (JS.ceil_div a b - 1) * b < a <= JS.ceil_div a b * b.
Proof.
  intros Hb. unfold JS.ceil_div.
  pose proof (Z.mul_div_le (- a) b Hb).
  pose proof (Z.mul_succ_div_gt (- a) b Hb). nia.
Qed.

(** [Math.ceil(a / b)] is the least number of pages of [b] that hold [a]. *)
Lemma ceil_div_least (a b n : Z) :
  0 < b → (JS.ceil_div a b <= n ↔ a <= n * b).
Proof.
  intros Hb. pose proof (ceil_div_bounds a b Hb). split; intros; nia.
Qed.

(** ** Featured entries first *)

Section FeaturedFirst.
Context `{Platform}.

(** Whatever the filters, the skip and the limit, a query composed by
    [findWithFilters] of [models/Portfolio.js] yields the featured
    documents before the others, and documents with the same flag in
    the order of the mode's secondary key. *)
Lemma findWithFilters_exec_featured_first filters n m w r w' i j a b :
  exec (limit m (skip n (findWithFilters filters))) w = (inr r, w') →
  (i < j)%nat → r !! i = Some a → r !! j = Some b →
  (featured b.2 = true → featured a.2 = true)
  ∧ (featured a.2 = featured b.2 →
     sort_le (secondary_key (f_sort filters)) a b).
Proof.
  intros He Hij Hi Hj.
  destruct (exec_StronglySorted (limit m (skip n (findWithFilters filters))) w)
    as (r0 & He0 & Hs).
  rewrite He in He0. injection He0 as <-.
  simpl in Hs. rewrite findWithFilters_sort in Hs.
  apply featured_first_le.
  eapply StronglySorted_lookup_lt; eauto.
Qed.

(** The list route of [routes/portfolio.js], which composes its query
    with the [findWithFilters] of [models/Portfolio.js]: in every sort
    mode, on every page, the featured entries come before the others and
    entries with the same flag follow the mode's secondary key. *)
Theorem list_portfolios_featured_first q w r w' docs pg i j a b :
  list_portfolios findWithFilters q w = Some (r, w') →
  data r = DataList docs pg →
  (i < j)%nat → docs !! i = Some a → docs !! j = Some b →
  (featured b.2 = true → featured a.2 = true)
  ∧ (featured a.2 = featured b.2 →
     sort_le (secondary_key (f_sort (list_filters q))) a b).
Proof.
  intros Hr Hd Hij Hi Hj.
  destruct (list_portfolios_inv _ _ _ _ _ Hr) as (p & l & Hp & Hl & Hp1 & Hl1).
  rewrite (list_portfolios_eq _ _ _ _ _ Hp Hl Hp1 Hl1) in Hr.
  injection Hr as <- <-. simpl in Hd. injection Hd as <- <-.
  eapply (findWithFilters_exec_featured_first (list_filters q)
            (Z.to_nat ((p - 1) * l)) (Z.to_nat l) w); eauto.
Qed.
End FeaturedFirst.

(** C1. The list route of the serverless entry point, on the two sample
    entries, in the mode 최신순 (newest):
    the entry that is not featured is listed before the featured one.
    That composer sorts by [createdAt] alone in this mode, where
    [models/Portfolio.js] sorts by [featured] first. *)
Example serverless_newest_unfeatured_first :
  (data ∘ fst) <$>
    @serverless_list_portfolios Sample.platform ∅
      (mkListParams None None None (Some "최신순") None None None)
      Sample.two_entries
  = Some (DataList [(Sample.id2, Sample.culf_ai); (Sample.id1, Sample.api_hub)]
            (mkPagination 1 1 2 10 false false))
  ∧ featured Sample.culf_ai = false
  ∧ featured Sample.api_hub = true.
Proof. vm_compute. auto. Qed.

(** The same request answered with the composer of
    [models/Portfolio.js]: the featured entry comes first. *)
Example model_newest_featured_first :
  (data ∘ fst) <$>
    @list_portfolios Sample.platform findWithFilters
      (mkListParams None None None (Some "최신순") None None None)
      Sample.two_entries
  = Some (DataList [(Sample.id1, Sample.api_hub); (Sample.id2, Sample.culf_ai)]
            (mkPagination 1 1 2 10 false false)).
Proof. vm_compute. reflexivity. Qed.

(** ** The displayable image reference *)

(** C2, as stated, fails: for an entry that holds only a blob reference
    the virtual yields the route under [/api], as the router is mounted,
    not the bare [/portfolio/image/<id>]. *)
Lemma imageUrl_not_bare_path :
  let p := set_imageId (Some Sample.blob1) Sample.culf_ai in
  imageBase64 p = ""
  ∧ imageId p = Some Sample.blob1
  ∧ imageUrl p = "/api/portfolio/image/65000000000000000000f001"
  ∧ imageUrl p ≠ spec_imageUrl p.
Proof. vm_compute. repeat split; congruence. Qed.

(** C2, amended: a non-empty [imageBase64] is returned as it is;
    otherwise a set [imageId] gives [/api/portfolio/image/<id>];
    otherwise a non-empty legacy [image] is returned; otherwise the empty
    string. *)
Theorem imageUrl_precedence (p : Portfolio) :
  (imageBase64 p ≠ "" → imageUrl p = imageBase64 p)
  ∧ (∀ fid, imageBase64 p = "" → imageId p = Some fid →
       imageUrl p = "/api/portfolio/image/" +:+ fid)
  ∧ (imageBase64 p = "" → imageId p = None → image p ≠ "" →
       imageUrl p = image p)
  ∧ (imageBase64 p = "" → imageId p = None → image p = "" →
       imageUrl p = "").
Proof.
  unfold imageUrl, JS.truthy_str.
  repeat split.
  - intros Hb. now rewrite bool_decide_eq_false_2.
  - intros fid -> ->. reflexivity.
  - intros -> -> Hi. simpl. now rewrite bool_decide_eq_false_2.
  - intros -> -> ->. reflexivity.
Qed.

(** ** Pagination *)

(** C3. For a list request whose page number [p] and limit [l] are at
    least 1, with either composer: the route answers with the documents
    that follow the first [(p - 1) * l] of the sorted matching ones, at
    most [l] of them, and reports [totalItems] matching documents,
    [currentPage = p], [itemsPerPage = l], [totalPages] the ceiling of
    [totalItems / l] (the number [t] with [(t - 1) * l < totalItems <= t * l]),
    [hasNext] exactly when [p < totalPages] and [hasPrev] exactly when
    [p > 1]. *)
Theorem list_portfolios_pagination `{Platform}
    (composer : Filters → Query) (q : ListParams) (w : World) (p l : Z) :
  page_number q = Some p → limit_number q = Some l → 1 <= p → 1 <= l →
  ∃ docs pg,
    list_portfolios composer q w
      = Some (mkResponse 200 true (DataList docs pg), w)
    ∧ docs = take (Z.to_nat l)
               (drop (Z.to_nat ((p - 1) * l)) (sorted_matching composer q w))
    ∧ 0 <= (p - 1) * l
    ∧ totalItems pg = Z.of_nat (length (sorted_matching composer q w))
    ∧ currentPage pg = p
    ∧ itemsPerPage pg = l
    ∧ (totalPages pg - 1) * l < totalItems pg <= totalPages pg * l
    ∧ (hasNext pg = true ↔ p < totalPages pg)
    ∧ (hasPrev pg = true ↔ 1 < p).
Proof.
  intros Hp Hl Hp1 Hl1.
  rewrite (list_portfolios_eq composer q w p l Hp Hl Hp1 Hl1).
  eexists _, _. split; [reflexivity|]. simpl.
  split; [reflexivity|]. split; [nia|].
  split.
  { unfold sorted_matching. now rewrite merge_sort_Permutation. }
  split; [reflexivity|]. split; [reflexivity|].
  split; [apply ceil_div_bounds; lia|].
  split; [apply Z.ltb_lt|apply Z.ltb_lt].
Qed.

Lemma list_portfolios_pagination_witness :
  let q := mkListParams None None None None (Some "2") (Some "1") None in
  let w := Sample.two_entries in
  ∃ docs pg,
    @list_portfolios Sample.platform findWithFilters q w
      = Some (mkResponse 200 true (DataList docs pg), w)
    ∧ docs = take (Z.to_nat 1)
               (drop (Z.to_nat ((2 - 1) * 1))
                  (@sorted_matching Sample.platform findWithFilters q w))
    ∧ 0 <= (2 - 1) * 1
    ∧ totalItems pg
      = Z.of_nat (length (@sorted_matching Sample.platform findWithFilters q w))
    ∧ currentPage pg = 2
    ∧ itemsPerPage pg = 1
    ∧ (totalPages pg - 1) * 1 < totalItems pg <= totalPages pg * 1
    ∧ (hasNext pg = true ↔ 2 < totalPages pg)
    ∧ (hasPrev pg = true ↔ 1 < 2).
Proof.
  intros q w.
  apply (@list_portfolios_pagination Sample.platform findWithFilters q w 2 1);
    [reflexivity | reflexivity | lia | lia].
Defined.

(** The second page of one, of the two sample entries: the entry that is
    not featured, and no further page. *)
Example list_portfolios_second_page :
  fst <$> @list_portfolios Sample.platform findWithFilters
            (mkListParams None None None None (Some "2") (Some "1") None)
            Sample.two_entries
  = Some (mkResponse 200 true
            (DataList [(Sample.id2, Sample.culf_ai)]
                      (mkPagination 2 2 2 1 false true))).
Proof. vm_compute. reflexivity. Qed.

(** [hasNext] says that documents remain after this page. *)
Lemma hasNext_iff_more (p l total : Z) :
  0 < l → (p <? JS.ceil_div total l) = true ↔ p * l < total.
Proof.
  intros Hl. rewrite Z.ltb_lt.
  pose proof (ceil_div_least total l p Hl). lia.
Qed.

Lemma sorted_matching_length `{Platform} composer q w :
  length (sorted_matching composer q w)
  = length (matching (q_conditions (composer (list_filters q))) w).
Proof. unfold sorted_matching. apply Permutation_length, merge_sort_Permutation. Qed.

(** The serverless route pages the same way, over the collection as the
    seeding leaves it. *)
Lemma serverless_list_portfolios_eq `{Platform} defaults q w page limit_ :
  page_number q = Some page → limit_number q = Some limit_ →
  1 <= page → 1 <= limit_ →
  let seeded := (initializeDefaultData defaults w).2 in
  let total :=
    Z.of_nat (length (sorted_matching Serverless.findWithFilters q seeded)) in
  serverless_list_portfolios defaults q w
  = Some (mkResponse 200 true
            (DataList
               (take (Z.to_nat limit_)
                  (drop (Z.to_nat ((page - 1) * limit_))
                     (sorted_matching Serverless.findWithFilters q seeded)))
               (mkPagination page (JS.ceil_div total limit_) total limit_
                  (page <? JS.ceil_div total limit_) (1 <? page))),
          seeded).
Proof.
  intros Hp Hl Hp1 Hl1 seeded total. unfold serverless_list_portfolios.
  rewrite (list_portfolios_eq _ q _ page limit_ Hp Hl Hp1 Hl1). simpl.
  unfold total. now rewrite sorted_matching_length.
Qed.

(** ** Store lemmas for the handlers *)

Section Store.
Context `{Platform}.

Lemma validate_set_views v p : validate (set_views v p) = validate p.
Proof. destruct p. reflexivity. Qed.

Lemma validate_set_likes v p : validate (set_likes v p) = validate p.
Proof. destruct p. reflexivity. Qed.

Lemma likes_set_likes v p : likes (set_likes v p) = v.
Proof. destruct p. reflexivity. Qed.

Lemma views_set_views v p : views (set_views v p) = v.
Proof. destruct p. reflexivity. Qed.

(** GET /:id on a valid identifier of a stored entry. *)
Lemma get_portfolio_found id oid p w :
  castObjectId id = Some oid → portfolios w !! oid = Some p →
  get_portfolio id w
  = if validate p
    then (mkResponse 200 true (DataPortfolio oid (set_views (views p + 1) p)),
          mkWorld (<[oid := set_views (views p + 1) p]> (portfolios w))
                  (gridfs w))
    else (mkResponse 500 false NoData, w).
Proof.
  intros Hc Hf. unfold get_portfolio, try_catch. rewrite Hc.
  unfold mbind, M_bind, findById, incrementViews, mbind, M_bind, save.
  rewrite Hf, validate_set_views. destruct (validate p); reflexivity.
Qed.

Lemma get_portfolio_bad_id id w :
  castObjectId id = None → get_portfolio id w = (mkResponse 400 false NoData, w).
Proof. intros Hc. unfold get_portfolio, try_catch. now rewrite Hc. Qed.

Lemma get_portfolio_not_found id oid w :
  castObjectId id = Some oid → portfolios w !! oid = None →
  get_portfolio id w = (mkResponse 404 false NoData, w).
Proof.
  intros Hc Hf. unfold get_portfolio, try_catch. rewrite Hc.
  unfold mbind, M_bind, findById. now rewrite Hf.
Qed.

(** POST /:id/like on a valid identifier of a stored entry. *)
Lemma like_portfolio_found id oid p w (inc : bool) :
  castObjectId id = Some oid → portfolios w !! oid = Some p →
  like_portfolio id (JS.Bool inc) w
  = if validate p
    then (mkResponse 200 true (DataLikes (toggled (likes p) inc)),
          mkWorld (<[oid := set_likes (toggled (likes p) inc) p]> (portfolios w))
                  (gridfs w))
    else (mkResponse 500 false NoData, w).
Proof.
  intros Hc Hf. unfold like_portfolio, try_catch. simpl. rewrite Hc.
  unfold mbind, M_bind, findById, toggleLike, mbind, M_bind, save.
  rewrite Hf. unfold toggled. simpl. rewrite likes_set_likes.
  destruct (likes p + (if inc then 1 else -1) <? 0);
    rewrite ?validate_set_likes, ?likes_set_likes;
    destruct (validate p); try reflexivity;
    unfold mret, M_ret; simpl; rewrite ?likes_set_likes;
    destruct p; reflexivity.
Qed.
End Store.

(** ** Likes *)

Section Likes.
Context `{Platform}.

Lemma toggled_nonneg n inc : 0 <= toggled n inc.
Proof.
  unfold toggled. destruct (Z.ltb_spec (n + (if inc then 1 else -1)) 0); lia.
Qed.

Lemma toggled_cases n inc :
  0 <= n →
  toggled n inc = if inc then n + 1 else if n =? 0 then 0 else n - 1.
Proof.
  intros Hn. unfold toggled. destruct inc.
  - destruct (Z.ltb_spec (n + 1) 0); lia.
  - destruct (Z.ltb_spec (n + -1) 0), (Z.eqb_spec n 0); lia.
Qed.

(** A stored, valid entry with a counter that is not negative stays so
    through any sequence of toggles. *)
Lemma like_all_invariant id oid incs : ∀ w p,
  castObjectId id = Some oid → portfolios w !! oid = Some p →
  validate p = true → 0 <= likes p →
  ∃ p', portfolios (like_all id incs w) !! oid = Some p'
        ∧ validate p' = true ∧ 0 <= likes p'.
Proof.
  induction incs as [|inc incs IH]; intros w p Hc Hf Hv Hl; simpl.
  - eauto.
  - rewrite (like_portfolio_found id oid p w inc Hc Hf), Hv. simpl.
    eapply (IH _ (set_likes (toggled (likes p) inc) p)); auto.
    + simpl. apply lookup_insert_eq.
    + now rewrite validate_set_likes.
    + rewrite likes_set_likes. apply toggled_nonneg.
Qed.

(** C4. An entry starts with [likes = 0] (and, like every stored entry,
    passes the schema validation). After any sequence [incs] of toggles
    the counter [before] is not negative, and one more toggle leaves
    [after], not negative either: [before + 1] for an increment, [0]
    for a decrement at [0], [before - 1] for any other decrement. The
    route answers with [after]. *)
Theorem likes_never_negative id oid p w :
  castObjectId id = Some oid → portfolios w !! oid = Some p →
  validate p = true → likes p = 0 →
  ∀ (incs : list bool) (inc : bool),
  ∃ before after w',
    likes <$> portfolios (like_all id incs w) !! oid = Some before
    ∧ like_portfolio id (JS.Bool inc) (like_all id incs w)
      = (mkResponse 200 true (DataLikes after), w')
    ∧ likes <$> portfolios w' !! oid = Some after
    ∧ 0 <= before ∧ 0 <= after
    ∧ after = if inc then before + 1
              else if before =? 0 then 0 else before - 1.
Proof.
  intros Hc Hf Hv Hl incs inc.
  destruct (like_all_invariant id oid incs w p Hc Hf Hv) as (p1 & Hf1 & Hv1 & Hl1);
    [lia|].
  exists (likes p1), (toggled (likes p1) inc). eexists.
  rewrite Hf1. split; [reflexivity|].
  rewrite (like_portfolio_found id oid p1 _ inc Hc Hf1), Hv1.
  split; [reflexivity|]. simpl. rewrite lookup_insert_eq. simpl.
  rewrite likes_set_likes. split; [reflexivity|].
  split; [assumption|]. split; [apply toggled_nonneg|].
  now apply toggled_cases.
Qed.
End Likes.

Lemma likes_never_negative_witness :
  let w := Sample.two_entries in
  ∃ before after w',
    likes <$> portfolios (@like_all Sample.platform Sample.id2 [true; false; false] w)
                !! Sample.id2 = Some before
    ∧ @like_portfolio Sample.platform Sample.id2 (JS.Bool false)
        (@like_all Sample.platform Sample.id2 [true; false; false] w)
      = (mkResponse 200 true (DataLikes after), w')
    ∧ likes <$> portfolios w' !! Sample.id2 = Some after
    ∧ 0 <= before ∧ 0 <= after
    ∧ after = if false then before + 1
              else if before =? 0 then 0 else before - 1.
Proof.
  intros w.
  apply (@likes_never_negative Sample.platform Sample.id2 Sample.id2
           Sample.culf_ai w);
    [reflexivity | reflexivity | reflexivity | reflexivity].
Defined.

(** Like, unlike, unlike, unlike: 1, 0, 0, 0. *)
Example like_unlike_unlike :
  let likes_after incs :=
    likes <$> portfolios (@like_all Sample.platform Sample.id2 incs
                            Sample.two_entries) !! Sample.id2 in
  likes_after [true] = Some 1
  ∧ likes_after [true; false] = Some 0
  ∧ likes_after [true; false; false] = Some 0
  ∧ likes_after [true; false; false; false] = Some 0.
Proof. vm_compute. auto. Qed.

(** ** Image storage on update *)

Section Update.
Context `{Platform}.

(** The best-effort deletion never throws, leaves the collection alone,
    and leaves the bucket without the file, when there is a bucket. *)
Lemma try_delete_eq (old : ObjectId) (w : World) :
  try_warn (deleteFromGridFS old) w
  = (inr (), mkWorld (portfolios w) (delete old <$> gridfs w)).
Proof.
  unfold try_warn, deleteFromGridFS. destruct w as [ps [bucket|]]; simpl.
  - destruct (bucket !! old) eqn:E; simpl; [reflexivity|].
    now rewrite delete_id.
  - reflexivity.
Qed.

(** When the deletion fails, nothing at all has changed. *)
Lemma deleteFromGridFS_failure (old : ObjectId) (w : World) e w' :
  deleteFromGridFS old w = (inl e, w') →
  w' = w ∧ (gridfs w = None ∨ ∃ bucket, gridfs w = Some bucket ∧ bucket !! old = None).
Proof.
  unfold deleteFromGridFS. destruct (gridfs w) as [bucket|] eqn:E.
  - destruct (bucket !! old) eqn:E'; intros [= <- <-]; eauto.
  - intros [= <- <-]. auto.
Qed.

(** A binary upload, with the bucket in reach. *)
Lemma update_image_file p fileId body f d w bucket :
  gridfs w = Some bucket →
  update_image p fileId body (Some f) d w
  = (inr (with_imageBase64 "" (with_imageId (Some fileId) d)),
     mkWorld (portfolios w)
       (Some (<[fileId := mkGridFile (originalname f) (mimetype f) (buffer f)]>
                (without (imageId p) bucket)))).
Proof.
  intros Hg. unfold update_image, mbind, M_bind.
  destruct (imageId p) as [old|]; simpl.
  - rewrite try_delete_eq, Hg. unfold saveToGridFS, mret, M_ret. simpl.
    reflexivity.
  - unfold mret at 1, M_ret at 1. unfold saveToGridFS. rewrite Hg.
    reflexivity.
Qed.

(** A binary upload, with the bucket out of reach: the upload throws. *)
Lemma update_image_file_unreachable p fileId body f d w :
  gridfs w = None →
  ∃ e, update_image p fileId body (Some f) d w = (inl (OtherError e), w).
Proof.
  intros Hg. unfold update_image, mbind, M_bind.
  destruct (imageId p) as [old|]; simpl.
  - rewrite try_delete_eq, Hg. unfold saveToGridFS. simpl.
    destruct w; simpl in *; subst. eauto.
  - unfold mret at 1, M_ret at 1. unfold saveToGridFS. rewrite Hg. eauto.
Qed.

(** An inline payload and no upload. *)
Lemma update_image_base64 p fileId body b64 d w :
  b_imageBase64 body = Some b64 → b64 ≠ "" →
  update_image p fileId body None d w
  = (inr (match imageId p with
          | Some _ => with_imageId None (with_imageBase64 b64 d)
          | None => with_imageBase64 b64 d
          end),
     mkWorld (portfolios w) (without (imageId p) <$> gridfs w)).
Proof.
  intros Hb Hne. unfold update_image. rewrite Hb. simpl.
  rewrite bool_decide_eq_false_2 by assumption. simpl.
  destruct (imageId p) as [old|]; simpl.
  - unfold mbind, M_bind. rewrite try_delete_eq. reflexivity.
  - unfold mret, M_ret. destruct w as [ps [b|]]; reflexivity.
Qed.

(** Neither an upload nor a payload: nothing happens. *)
Lemma update_image_none p fileId body d w :
  JS.truthy_str (b_imageBase64 body) = false →
  update_image p fileId body None d w = (inr d, w).
Proof. intros Hb. unfold update_image. now rewrite Hb. Qed.

(** Whatever the image part does, it leaves the collection alone. *)
Lemma update_image_portfolios p fileId body file d w r w' :
  update_image p fileId body file d w = (r, w') →
  portfolios w' = portfolios w.
Proof.
  destruct file as [f|].
  - destruct (gridfs w) as [bucket|] eqn:Hg.
    + rewrite (update_image_file _ _ _ _ _ _ _ Hg). now intros [= <- <-].
    + destruct (update_image_file_unreachable p fileId body f d w Hg) as [e ->].
      now intros [= <- <-].
  - destruct (JS.truthy_str (b_imageBase64 body)) eqn:Hb.
    + destruct (b_imageBase64 body) as [b64|] eqn:Hb'; [|discriminate].
      rewrite (update_image_base64 p fileId body b64 d w Hb').
      * now intros [= <- <-].
      * simpl in Hb. intros ->. discriminate.
    + rewrite (update_image_none _ _ _ _ _ Hb). now intros [= <- <-].
Qed.

(** PUT /:id on a valid identifier of a stored entry. *)
Lemma update_portfolio_found fileId id oid body file p w :
  castObjectId id = Some oid → portfolios w !! oid = Some p →
  update_portfolio fileId id body file w
  = match update_image p fileId body file (update_data body) w with
    | (inr d, w1) =>
        if validate (assign p d)
        then (mkResponse 200 true (DataPortfolio oid (assign p d)),
              mkWorld (<[oid := assign p d]> (portfolios w1)) (gridfs w1))
        else (mkResponse 400 false NoData, w1)
    | (inl e, w1) => (validation_or_server_error e, w1)
    end.
Proof.
  intros Hc Hf. unfold update_portfolio, try_catch. rewrite Hc.
  unfold mbind, M_bind, findById. rewrite Hf.
  destruct (update_image p fileId body file (update_data body) w) as [[e|d] w1];
    [reflexivity|].
  unfold save. destruct (validate (assign p d)); reflexivity.
Qed.

(** A successful update went through the image part and the validation. *)
Lemma update_portfolio_success fileId id oid body file p w r w' :
  castObjectId id = Some oid → portfolios w !! oid = Some p →
  update_portfolio fileId id body file w = (r, w') → status r = 200 →
  ∃ d w1,
    update_image p fileId body file (update_data body) w = (inr d, w1)
    ∧ validate (assign p d) = true
    ∧ r = mkResponse 200 true (DataPortfolio oid (assign p d))
    ∧ w' = mkWorld (<[oid := assign p d]> (portfolios w)) (gridfs w1).
Proof.
  intros Hc Hf Hu Hs.
  rewrite (update_portfolio_found _ _ _ _ _ _ _ Hc Hf) in Hu.
  destruct (update_image p fileId body file (update_data body) w)
    as [[e|d] w1] eqn:Hi.
  - injection Hu as <- <-. destruct e; discriminate.
  - destruct (validate (assign p d)) eqn:Hv.
    + injection Hu as <- <-. exists d, w1.
      rewrite (update_image_portfolios _ _ _ _ _ _ _ _ Hi). auto.
    + injection Hu as <- <-. discriminate.
Qed.
End Update.

Section Assign.
Context `{Platform}.

(** What [Object.assign] leaves in each path of the document. *)
Lemma assign_paths (p : Portfolio) (d : DocData) :
  title (assign p d) = from_option js_trim (title p) (d_title d)
  ∧ description (assign p d)
    = from_option js_trim (description p) (d_description d)
  ∧ url (assign p d)
    = from_option (λ v, Some (js_trim v)) (url p) (d_url d)
  ∧ category (assign p d) = default (category p) (d_category d)
  ∧ tags (assign p d) = from_option (fmap js_trim) (tags p) (d_tags d)
  ∧ featured (assign p d) = default (featured p) (d_featured d)
  ∧ imageId (assign p d) = default (imageId p) (d_imageId d)
  ∧ imageBase64 (assign p d) = default (imageBase64 p) (d_imageBase64 d)
  ∧ image (assign p d) = image p
  ∧ views (assign p d) = views p
  ∧ likes (assign p d) = likes p
  ∧ createdAt (assign p d) = createdAt p.
Proof.
  destruct p, d as [[?|] [?|] [?|] [?|] [?|] [?|] [?|] [?|]];
    repeat split; reflexivity.
Qed.
End Assign.



(** The two updates on the sample entry: after the upload the old blob is
    gone and the new one is referred to; after the inline payload the
    blob is gone and the reference cleared. *)
Example update_upload_then_inline :
  (let p := portfolios SampleUpdate.upload.2 !! Sample.id3 in
   status SampleUpdate.upload.1 = 200
   ∧ imageId <$> p = Some (Some Sample.blob2)
   ∧ imageBase64 <$> p = Some ""
   ∧ imageUrl <$> p = Some "/api/portfolio/image/65000000000000000000f002"
   ∧ dom <$> gridfs SampleUpdate.upload.2 = Some {[Sample.blob2]})
  ∧ (let p := portfolios SampleUpdate.inline.2 !! Sample.id3 in
     status SampleUpdate.inline.1 = 200
     ∧ imageId <$> p = Some None
     ∧ imageUrl <$> p = Some "data:image/png;base64,iVBORw0KGgo="
     ∧ gridfs SampleUpdate.inline.2 = Some ∅).
Proof. vm_compute. repeat split; reflexivity. Qed.

(** ** Deletion *)

(** C6. Deleting a stored entry that holds a blob reference: the route
    answers 200 with [success: true], the entry is gone from the
    collection and every other entry is as it was, whatever the blob
    store does. When the deletion of the blob fails (the store is out of
    reach, or has no such file), the blob store is left as it was and the
    entry is removed all the same. *)
Theorem delete_survives_blob_failure `{Platform} id oid p fileId w :
  castObjectId id = Some oid → portfolios w !! oid = Some p →
  imageId p = Some fileId →
  ∃ w', delete_portfolio id w = (mkResponse 200 true (DataId id), w')
    ∧ portfolios w' = delete oid (portfolios w)
    ∧ portfolios w' !! oid = None
    ∧ gridfs w' = delete fileId <$> gridfs w
    ∧ (∀ e w1, deleteFromGridFS fileId w = (inl e, w1) → gridfs w' = gridfs w).
Proof.
  intros Hc Hf Hi. unfold delete_portfolio, try_catch. rewrite Hc.
  unfold mbind, M_bind, findById. rewrite Hf, Hi, try_delete_eq.
  unfold findByIdAndDelete, mret, M_ret. simpl.
  eexists. split; [reflexivity|]. simpl.
  split; [reflexivity|]. split; [apply lookup_delete_eq|].
  split; [reflexivity|].
  intros e w1 He. apply deleteFromGridFS_failure in He as [_ [Hg|(b & Hg & Hb)]].
  - now rewrite Hg.
  - rewrite Hg. simpl. now rewrite delete_id.
Qed.

Lemma delete_survives_blob_failure_witness :
  let w := SampleUpdate.unreachable in
  ∃ w', @delete_portfolio Sample.platform Sample.id3 w
        = (mkResponse 200 true (DataId Sample.id3), w')
    ∧ portfolios w' = delete Sample.id3 (portfolios w)
    ∧ portfolios w' !! Sample.id3 = None
    ∧ gridfs w' = delete Sample.blob1 <$> gridfs w
    ∧ (∀ e w1, deleteFromGridFS Sample.blob1 w = (inl e, w1) →
         gridfs w' = gridfs w).
Proof.
  intros w.
  apply (@delete_survives_blob_failure Sample.platform Sample.id3 Sample.id3
           (set_imageId (Some Sample.blob1) Sample.culf_ai) Sample.blob1 w);
    [reflexivity | vm_compute; reflexivity | reflexivity].
Defined.

(** With the blob store out of reach the deletion of the blob throws, and
    the route still removes the entry and reports success. *)
Example delete_with_unreachable_store :
  (∃ e, deleteFromGridFS Sample.blob1 SampleUpdate.unreachable
        = (inl e, SampleUpdate.unreachable))
  ∧ @delete_portfolio Sample.platform Sample.id3 SampleUpdate.unreachable
    = (mkResponse 200 true (DataId Sample.id3), mkWorld ∅ None).
Proof. split; [eexists|]; vm_compute; reflexivity. Qed.

(** ** Filters *)

Lemma split_comma_aux_nonempty acc s : (0 < length (JS.split_comma_aux acc s))%nat.
Proof.
  revert acc. induction s as [|c s IH]; intros acc; simpl; [lia|].
  destruct (bool_decide (c = ","%char)); simpl; [lia|apply IH].
Qed.

Lemma split_comma_nonempty s : (0 <? length (JS.split_comma s))%nat = true.
Proof. apply Nat.ltb_lt, split_comma_aux_nonempty. Qed.

(** The conditions the list route composes from its parameters. *)
Lemma list_conditions (q : ListParams) :
  q_conditions (findWithFilters (list_filters q))
  = mkConditions
      (if JS.truthy_str (p_category q) then p_category q else None)
      (if JS.truthy_str (p_tags q) then JS.split_comma <$> p_tags q else None)
      (if JS.truthy_str (p_search q) then p_search q else None)
      ((λ v, bool_decide (v = "true")) <$> p_featured q).
Proof.
  rewrite findWithFilters_conditions. unfold filter_conditions, list_filters.
  simpl. f_equal.
  - destruct (p_category q) as [c|]; [|reflexivity]. simpl.
    destruct (bool_decide (c = "")) eqn:E; simpl; [reflexivity|].
    now rewrite E.
  - destruct (p_tags q) as [t|]; [|reflexivity]. simpl.
    destruct (bool_decide (t = "")); simpl; [reflexivity|].
    now rewrite split_comma_nonempty.
  - destruct (p_search q) as [c|]; [|reflexivity]. simpl.
    destruct (bool_decide (c = "")) eqn:E; simpl; [reflexivity|].
    now rewrite E.
Qed.

Lemma serverless_conditions (filters : Filters) :
  q_conditions (Serverless.findWithFilters filters) = filter_conditions filters.
Proof.
  unfold Serverless.findWithFilters.
  destruct (JS.truthy_str (f_sort filters)); [|reflexivity].
  destruct (f_sort filters); [|reflexivity].
  repeat case_bool_decide; reflexivity.
Qed.

(** C7, as stated, fails: a category that is none of the seven known
    values is not ignored but matched exactly, so nothing is listed; and a
    [featured] parameter with an unrecognised value such as [yes] is read
    as [false], so only the entries that are not featured are listed.
    Without the parameter both sample entries are listed. *)
Lemma unrecognised_filter_not_noop :
  let answer q :=
    (data ∘ fst) <$> @list_portfolios Sample.platform findWithFilters q
                       Sample.two_entries in
  bool_decide ("Invalid" ∈ category_values) = false
  ∧ answer (mkListParams (Some "Invalid") None None None None None None)
    = Some (DataList [] (mkPagination 1 0 0 10 false false))
  ∧ answer (mkListParams None None None None None None (Some "yes"))
    = Some (DataList [(Sample.id2, Sample.culf_ai)]
              (mkPagination 1 1 1 10 false false))
  ∧ answer Sample.no_params
    = Some (DataList [(Sample.id1, Sample.api_hub); (Sample.id2, Sample.culf_ai)]
              (mkPagination 1 1 2 10 false false)).
Proof. vm_compute. auto. Qed.

Section Filters.
Context `{Platform}.

Lemma tags_in_iff vs p :
  tags_in vs p = true ↔ ∃ t, t ∈ tags p ∧ t ∈ vs.
Proof.
  unfold tags_in. rewrite existsb_exists. split.
  - intros (t & Ht & Hv). exists t. split; [now apply list_elem_of_In|].
    now apply bool_decide_eq_true in Hv.
  - intros (t & Ht & Hv). exists t. split; [now apply list_elem_of_In|].
    now apply bool_decide_eq_true.
Qed.

(** C7, amended: an entry is listed exactly when it meets the condition
    of every parameter that is present and not empty. A parameter that
    is absent or empty puts no condition on its axis. A category is
    matched exactly, known or not; the tags ask for one tag in common
    with the comma-separated list; the search goes to the text index;
    [featured], once present, asks for [featured = true] when it is the
    string [true] and for [featured = false] with any other value. *)
Theorem filters_constrain_only_when_present (q : ListParams) (p : Portfolio) :
  matches (q_conditions (findWithFilters (list_filters q))) p = true
  ↔ (∀ v, p_category q = Some v → v ≠ "" → category p = v)
    ∧ (∀ s, p_tags q = Some s → s ≠ "" →
         ∃ t, t ∈ tags p ∧ t ∈ JS.split_comma s)
    ∧ (∀ s, p_search q = Some s → s ≠ "" →
         text_search s (title p) (description p) (tags p) = true)
    ∧ (∀ v, p_featured q = Some v → featured p = bool_decide (v = "true")).
Proof.
  rewrite list_conditions. unfold matches. simpl.
  rewrite !andb_true_iff.
  assert (∀ (o : option string) (P : string → Prop) (b : string → bool),
            (∀ s, b s = true ↔ P s) →
            match (if JS.truthy_str o then o else None) with
            | Some s => b s
            | None => true
            end = true ↔ (∀ s, o = Some s → s ≠ "" → P s)) as Haxis.
  { intros o P b Hb. destruct o as [s|]; simpl.
    - destruct (bool_decide (s = "")) eqn:E; simpl.
      + apply bool_decide_eq_true in E. subst. split; [|reflexivity].
        intros _ s [= <-] Hne. congruence.
      + apply bool_decide_eq_false in E. rewrite Hb. split.
        * intros HP s' [= <-] _. exact HP.
        * intros HP. now apply HP.
    - split; [|reflexivity]. intros _ s Hs. discriminate. }
  rewrite (Haxis (p_category q) (λ v, category p = v)
             (λ v, bool_decide (category p = v)))
    by (intros; apply bool_decide_eq_true).
  rewrite (Haxis (p_search q)
             (λ s, text_search s (title p) (description p) (tags p) = true)
             (λ s, text_search s (title p) (description p) (tags p)))
    by reflexivity.
  assert (match (if JS.truthy_str (p_tags q)
                 then JS.split_comma <$> p_tags q else None) with
          | Some vs => tags_in vs p
          | None => true
          end = true
          ↔ (∀ s, p_tags q = Some s → s ≠ "" →
               ∃ t, t ∈ tags p ∧ t ∈ JS.split_comma s)) as ->.
  { destruct (p_tags q) as [s|]; simpl.
    - destruct (bool_decide (s = "")) eqn:E; simpl.
      + apply bool_decide_eq_true in E. subst. split; [|reflexivity].
        intros _ s [= <-] Hne. congruence.
      + rewrite tags_in_iff. split.
        * intros HP s' [= <-] _. exact HP.
        * intros HP. apply HP; [reflexivity|].
          now apply bool_decide_eq_false in E.
    - split; [|reflexivity]. intros _ s Hs. discriminate. }
  assert (match (λ v, bool_decide (v = "true")) <$> p_featured q with
          | Some b => bool_decide (featured p = b)
          | None => true
          end = true
          ↔ (∀ v, p_featured q = Some v →
               featured p = bool_decide (v = "true"))) as ->.
  { destruct (p_featured q) as [v|]; simpl.
    - rewrite bool_decide_eq_true. split.
      + intros HP v' [= <-]. exact HP.
      + intros HP. now apply HP.
    - split; [|reflexivity]. intros _ v Hv. discriminate. }
  tauto.
Qed.

(** With no parameter at all, every entry of the collection is counted. *)
Lemma no_filters_match_all (p : Portfolio) :
  matches (q_conditions (findWithFilters (list_filters Sample.no_params))) p
  = true.
Proof. reflexivity. Qed.
End Filters.

(** ** Creation *)

Section Create.
Context `{Platform}.

(** The image part leaves the collection and the other keys alone. *)
Lemma create_image_inv fileId body file d w d' w' :
  create_image fileId body file d w = (inr d', w') →
  portfolios w' = portfolios w ∧ d_featured d' = d_featured d.
Proof.
  unfold create_image. destruct file as [f|].
  - unfold mbind, M_bind, saveToGridFS. destruct (gridfs w); [|discriminate].
    unfold mret, M_ret. intros [= <- <-]. auto.
  - unfold mret, M_ret. destruct (JS.truthy_str (b_imageBase64 body)).
    + destruct (b_imageBase64 body); intros [= <- <-]; auto.
    + intros [= <- <-]; auto.
Qed.

Lemma create_portfolio_eq now oid fileId body file w :
  create_portfolio now oid fileId body file w
  = match create_image fileId body file (portfolio_data body) w with
    | (inr d, w1) =>
        if validate (new_Portfolio now d)
        then (mkResponse 201 true (DataPortfolio oid (new_Portfolio now d)),
              mkWorld (<[oid := new_Portfolio now d]> (portfolios w1))
                      (gridfs w1))
        else (mkResponse 400 false NoData, w1)
    | (inl e, w1) => (validation_or_server_error e, w1)
    end.
Proof.
  unfold create_portfolio, try_catch, mbind, M_bind.
  destruct (create_image fileId body file (portfolio_data body) w)
    as [[e|d] w1]; [reflexivity|].
  unfold save. destruct (validate (new_Portfolio now d)); reflexivity.
Qed.

(** A successful creation stored the document built from
    [portfolioData], with the image key the request called for. *)
Lemma create_portfolio_success now oid fileId body file w r w' :
  create_portfolio now oid fileId body file w = (r, w') → status r = 201 →
  ∃ d, d_featured d = Some (featured_flag (b_featured body))
       ∧ validate (new_Portfolio now d) = true
       ∧ portfolios w' = <[oid := new_Portfolio now d]> (portfolios w)
       ∧ r = mkResponse 201 true (DataPortfolio oid (new_Portfolio now d)).
Proof.
  rewrite create_portfolio_eq.
  destruct (create_image fileId body file (portfolio_data body) w)
    as [[e|d] w1] eqn:Hi.
  - intros [= <- <-]. destruct e; discriminate.
  - destruct (create_image_inv _ _ _ _ _ _ _ Hi) as [Hp Hd].
    destruct (validate (new_Portfolio now d)) eqn:Hv.
    + intros [= <- <-] _. exists d. simpl. rewrite Hp. auto.
    + intros [= <- <-]. discriminate.
Qed.
End Create.

(** ** Partial patch *)

(** The keys of [updateData] once the image part is done: the keys for
    the fields of the body are as [update_data] set them, and without an
    upload or an inline payload there is no other key. *)
Lemma update_image_keys `{Platform} p fileId body file w d w1 :
  update_image p fileId body file (update_data body) w = (inr d, w1) →
  d_title d = b_title body
  ∧ d_description d = b_description body
  ∧ d_url d = b_url body
  ∧ d_category d = b_category body
  ∧ d_tags d = tags_of_field <$> b_tags body
  ∧ d_featured d = (if JS.strict_eq (b_featured body) JS.Undefined
                    then None
                    else Some (featured_flag (b_featured body)))
  ∧ (file = None → JS.truthy_str (b_imageBase64 body) = false →
     d = update_data body).
Proof.
  intros Hi. destruct file as [f|].
  - destruct (gridfs w) as [bucket|] eqn:Hg.
    + rewrite (update_image_file _ _ _ _ _ _ _ Hg) in Hi.
      injection Hi as <- <-. repeat apply conj; try reflexivity. discriminate.
    + destruct (update_image_file_unreachable p fileId body f
                  (update_data body) w Hg) as [e He].
      rewrite He in Hi. discriminate.
  - destruct (JS.truthy_str (b_imageBase64 body)) eqn:Hb.
    + destruct (b_imageBase64 body) as [b64|] eqn:Hb'; [|discriminate].
      rewrite (update_image_base64 p fileId body b64 _ w Hb') in Hi.
      * injection Hi as <- <-.
        destruct (imageId p); repeat apply conj; try reflexivity; discriminate.
      * simpl in Hb. intros ->. discriminate.
    + rewrite (update_image_none _ _ _ _ _ Hb) in Hi.
      injection Hi as <- <-. repeat apply conj; reflexivity.
Qed.

(** C8. An update of a stored entry touches no other entry; when it does
    not succeed the collection is as it was; when it succeeds, each of
    title, description, url, category, tags and featured holds the value
    the body gave for it (trimmed, for the texts) when the body has the
    field, and its prior value when it has not; the image fields are as
    they were when there is neither an upload nor an inline payload; and
    [views], [likes], the legacy [image] and [createdAt] are as they
    were, whatever the body holds. *)
Theorem update_partial_patch `{Platform} fileId id oid body file p w r w' :
  castObjectId id = Some oid → portfolios w !! oid = Some p →
  update_portfolio fileId id body file w = (r, w') →
  (∀ other, other ≠ oid → portfolios w' !! other = portfolios w !! other)
  ∧ (status r ≠ 200 → portfolios w' = portfolios w)
  ∧ (status r = 200 →
     ∃ p', portfolios w' !! oid = Some p'
       ∧ views p' = views p
       ∧ likes p' = likes p
       ∧ image p' = image p
       ∧ createdAt p' = createdAt p
       ∧ title p' = match b_title body with
                    | Some v => js_trim v
                    | None => title p
                    end
       ∧ description p' = match b_description body with
                          | Some v => js_trim v
                          | None => description p
                          end
       ∧ url p' = match b_url body with
                  | Some v => Some (js_trim v)
                  | None => url p
                  end
       ∧ category p' = match b_category body with
                       | Some v => v
                       | None => category p
                       end
       ∧ tags p' = match b_tags body with
                   | Some field => js_trim <$> tags_of_field field
                   | None => tags p
                   end
       ∧ featured p' = (if JS.strict_eq (b_featured body) JS.Undefined
                        then featured p
                        else featured_flag (b_featured body))
       ∧ (file = None → JS.truthy_str (b_imageBase64 body) = false →
          imageId p' = imageId p ∧ imageBase64 p' = imageBase64 p)).
Proof.
  intros Hc Hf Hu.
  pose proof (update_portfolio_found fileId id oid body file p w Hc Hf) as Heq.
  rewrite Hu in Heq.
  destruct (update_image p fileId body file (update_data body) w)
    as [[e|d] w1] eqn:Hi;
    pose proof (update_image_portfolios _ _ _ _ _ _ _ _ Hi) as Hp.
  { injection Heq as -> ->. rewrite Hp. repeat apply conj; auto.
    intros Hs. destruct e; discriminate. }
  destruct (validate (assign p d)) eqn:Hv.
  2:{ injection Heq as -> ->. rewrite Hp. repeat apply conj; auto.
      intros Hs. discriminate. }
  injection Heq as -> ->. simpl. rewrite Hp.
  split; [intros other Hne; now apply lookup_insert_ne|].
  split; [congruence|]. intros _.
  exists (assign p d). split; [apply lookup_insert_eq|].
  destruct (assign_paths p d)
    as (Ht & Hde & Hu' & Hca & Hta & Hfe & Hid & Hb64 & Him & Hvi & Hli & Hcr).
  destruct (update_image_keys _ _ _ _ _ _ _ Hi)
    as (Et & Ede & Eu & Eca & Eta & Efe & Enone).
  rewrite Hvi, Hli, Him, Hcr, Ht, Hde, Hu', Hca, Hta, Hfe, Hid, Hb64.
  rewrite Et, Ede, Eu, Eca, Eta, Efe.
  repeat apply conj; try reflexivity.
  - now destruct (b_tags body).
  - now destruct (JS.strict_eq (b_featured body) JS.Undefined).
  - intros Hn Hb. rewrite (Enone Hn Hb). split; reflexivity.
Qed.

Lemma update_partial_patch_witness :
  let p := Sample.culf_ai in
  let body := SamplePatch.rename in
  let r := SamplePatch.renamed.1 in
  let w' := SamplePatch.renamed.2 in
  (∀ other, other ≠ Sample.id2 →
     portfolios w' !! other = portfolios Sample.two_entries !! other)
  ∧ (status r ≠ 200 → portfolios w' = portfolios Sample.two_entries)
  ∧ (status r = 200 →
     ∃ p', portfolios w' !! Sample.id2 = Some p'
       ∧ views p' = views p
       ∧ likes p' = likes p
       ∧ image p' = image p
       ∧ createdAt p' = createdAt p
       ∧ title p' = match b_title body with
                    | Some v => @js_trim Sample.platform v
                    | None => title p
                    end
       ∧ description p' = match b_description body with
                          | Some v => @js_trim Sample.platform v
                          | None => description p
                          end
       ∧ url p' = match b_url body with
                  | Some v => Some (@js_trim Sample.platform v)
                  | None => url p
                  end
       ∧ category p' = match b_category body with
                       | Some v => v
                       | None => category p
                       end
       ∧ tags p' = match b_tags body with
                   | Some field =>
                       @js_trim Sample.platform
                         <$> @tags_of_field Sample.platform field
                   | None => tags p
                   end
       ∧ featured p' = (if JS.strict_eq (b_featured body) JS.Undefined
                        then featured p
                        else featured_flag (b_featured body))
       ∧ (@None File = None → JS.truthy_str (b_imageBase64 body) = false →
          imageId p' = imageId p ∧ imageBase64 p' = imageBase64 p)).
Proof.
  intros p body r w'.
  apply (@update_partial_patch Sample.platform Sample.blob2 Sample.id2
           Sample.id2 body None p Sample.two_entries r w');
    [reflexivity | vm_compute; reflexivity | vm_compute; reflexivity].
Defined.

(** The renamed entry: a new title, and everything else as it was. *)
Example rename_keeps_the_rest :
  status SamplePatch.renamed.1 = 200
  ∧ portfolios SamplePatch.renamed.2 !! Sample.id2
    = Some (mkPortfolio "CULF" "Content curation" "Culf.png" None ""
              (Some "https://culf.ai/") "AI/ML" ["큐레이션"; "AI"]
              false 0 0 2000).
Proof. vm_compute. auto. Qed.

(** ** Views *)

Section Views.
Context `{Platform}.

Lemma get_portfolio_cases id w r w' :
  get_portfolio id w = (r, w') →
  (status r = 200 ∧
   ∃ oid p, castObjectId id = Some oid ∧ portfolios w !! oid = Some p
     ∧ validate p = true
     ∧ r = mkResponse 200 true (DataPortfolio oid (set_views (views p + 1) p))
     ∧ w' = mkWorld (<[oid := set_views (views p + 1) p]> (portfolios w))
                    (gridfs w))
  ∨ (status r ≠ 200 ∧ w' = w).
Proof.
  destruct (castObjectId id) as [oid|] eqn:Hc.
  - destruct (portfolios w !! oid) as [p|] eqn:Hf.
    + rewrite (get_portfolio_found id oid p w Hc Hf).
      destruct (validate p) eqn:Hv; intros [= <- <-].
      * left. split; [reflexivity|]. exists oid, p. auto.
      * right. split; [discriminate|reflexivity].
    + rewrite (get_portfolio_not_found id oid w Hc Hf). intros [= <- <-].
      right. split; [discriminate|reflexivity].
  - rewrite (get_portfolio_bad_id id w Hc). intros [= <- <-].
    right. split; [discriminate|reflexivity].
Qed.

(** Reading a stored, valid entry [n] times adds [n] to its views. *)
Lemma read_times_views id oid n : ∀ w p,
  castObjectId id = Some oid → portfolios w !! oid = Some p →
  validate p = true →
  ∃ p', portfolios (read_times id n w) !! oid = Some p'
        ∧ validate p' = true ∧ views p' = views p + Z.of_nat n.
Proof.
  induction n as [|n IH]; intros w p Hc Hf Hv.
  - exists p. simpl. split; [assumption|]. split; [assumption|lia].
  - destruct (IH w p Hc Hf Hv) as (p1 & Hf1 & Hv1 & Hn).
    unfold read_times in *. simpl.
    rewrite (get_portfolio_found id oid p1 _ Hc Hf1), Hv1. simpl.
    exists (set_views (views p1 + 1) p1).
    rewrite lookup_insert_eq, validate_set_views, views_set_views.
    split; [reflexivity|]. split; [assumption|lia].
Qed.
End Views.

(** C9. A read-by-id that succeeds leaves the entry with its views
    raised by exactly 1, and the rest of the world as it was. A read with
    a bad identifier answers 400, one of an identifier that is not stored
    answers 404, and neither changes anything; no read that does not
    succeed does. An entry that has just been created has no views, and
    after three reads in a row (after [n], for any [n]) it has three
    ([n]). *)
Theorem read_increments_views `{Platform} :
  (∀ id w r w', get_portfolio id w = (r, w') → status r = 200 →
     ∃ oid p, castObjectId id = Some oid
       ∧ portfolios w !! oid = Some p
       ∧ views <$> portfolios w' !! oid = Some (views p + 1)
       ∧ (∀ other, other ≠ oid → portfolios w' !! other = portfolios w !! other)
       ∧ gridfs w' = gridfs w)
  ∧ (∀ id w, castObjectId id = None →
       get_portfolio id w = (mkResponse 400 false NoData, w))
  ∧ (∀ id oid w, castObjectId id = Some oid → portfolios w !! oid = None →
       get_portfolio id w = (mkResponse 404 false NoData, w))
  ∧ (∀ id w r w', get_portfolio id w = (r, w') → status r ≠ 200 → w' = w)
  ∧ (∀ now oid fileId body file w r w1 id n,
       create_portfolio now oid fileId body file w = (r, w1) →
       status r = 201 → castObjectId id = Some oid →
       views <$> portfolios w1 !! oid = Some 0
       ∧ views <$> portfolios (read_times id 3 w1) !! oid = Some 3
       ∧ views <$> portfolios (read_times id n w1) !! oid = Some (Z.of_nat n)).
Proof.
  repeat apply conj.
  - intros id w r w' Hg Hs.
    destruct (get_portfolio_cases id w r w' Hg)
      as [(_ & oid & p & Hc & Hf & Hv & -> & ->)|[Hn _]]; [|congruence].
    exists oid, p. simpl. rewrite lookup_insert_eq. simpl. rewrite views_set_views.
    repeat apply conj; auto. intros other Hne. now apply lookup_insert_ne.
  - intros. now apply get_portfolio_bad_id.
  - intros id oid w Hc Hf. exact (get_portfolio_not_found id oid w Hc Hf).
  - intros id w r w' Hg Hs.
    destruct (get_portfolio_cases id w r w' Hg) as [[Hn _]|[_ Hw]];
      [congruence|assumption].
  - intros now oid fileId body file w r w1 id n Hcr Hs Hc.
    destruct (create_portfolio_success _ _ _ _ _ _ _ _ Hcr Hs)
      as (d & _ & Hv & Hp & _).
    assert (portfolios w1 !! oid = Some (new_Portfolio now d)) as Hf
      by (rewrite Hp; apply lookup_insert_eq).
    assert (views (new_Portfolio now d) = 0) as H0.
    { unfold new_Portfolio.
      destruct (assign_paths (mkPortfolio "" "" "" None "" None "" [] false 0 0 now) d)
        as (_ & _ & _ & _ & _ & _ & _ & _ & _ & Hvi & _).
      exact Hvi. }
    split; [rewrite Hf; simpl; now rewrite H0|].
    split.
    + destruct (read_times_views id oid 3 w1 _ Hc Hf Hv) as (p' & Hf' & _ & Hn).
      rewrite Hf'. simpl. f_equal. lia.
    + destruct (read_times_views id oid n w1 _ Hc Hf Hv) as (p' & Hf' & _ & Hn).
      rewrite Hf'. simpl. f_equal. lia.
Qed.

Lemma read_increments_views_witness :
  let w1 := (SampleCreate.created JS.Undefined).2 in
  views <$> portfolios w1 !! Sample.id3 = Some 0
  ∧ views <$> portfolios (@read_times Sample.platform Sample.id3 3 w1)
                !! Sample.id3 = Some 3
  ∧ views <$> portfolios (@read_times Sample.platform Sample.id3 5 w1)
                !! Sample.id3 = Some (Z.of_nat 5).
Proof.
  intros w1.
  apply (proj2 (proj2 (proj2 (proj2 (@read_increments_views Sample.platform))))
           3000 Sample.id3 Sample.blob2 (SampleCreate.new_body JS.Undefined)
           None SampleCreate.empty_world
           (SampleCreate.created JS.Undefined).1 w1 Sample.id3 5%nat);
    [vm_compute; reflexivity | vm_compute; reflexivity | reflexivity].
Defined.

(** Three reads of the new entry answer with 1, 2 and 3 views; a read of
    an identifier that is not stored answers 404 and changes nothing. *)
Example three_reads :
  let w1 := (SampleCreate.created JS.Undefined).2 in
  let read := @get_portfolio Sample.platform Sample.id3 in
  let shown (r : Response) :=
    match data r with DataPortfolio _ p => Some (views p) | _ => None end in
  shown (read w1).1 = Some 1
  ∧ shown (read (read w1).2).1 = Some 2
  ∧ shown (read (read (read w1).2).2).1 = Some 3
  ∧ @get_portfolio Sample.platform Sample.id1 w1
    = (mkResponse 404 false NoData, w1)
  ∧ @get_portfolio Sample.platform "not-an-id" w1
    = (mkResponse 400 false NoData, w1).
Proof. vm_compute. auto. Qed.

(** ** The featured flag *)

Lemma featured_flag_iff `{Platform} (v : JS.value) :
  featured_flag v = true ↔ v = JS.Bool true ∨ v = JS.Str "true".
Proof.
  unfold featured_flag, JS.strict_eq.
  rewrite orb_true_iff, !bool_decide_eq_true. tauto.
Qed.

(** C10. The entry that a successful creation stores is featured exactly
    when the body's [featured] is the boolean [true] or the string
    [true]; so is the entry that a successful update stores, when the
    body has the field. With any other value, and on creation also
    without the field, the stored flag is [false]. *)
Theorem featured_iff_true `{Platform} :
  (∀ now oid fileId body file w r w',
     create_portfolio now oid fileId body file w = (r, w') → status r = 201 →
     ∃ p, portfolios w' !! oid = Some p
       ∧ (featured p = true
          ↔ b_featured body = JS.Bool true ∨ b_featured body = JS.Str "true")
       ∧ (b_featured body = JS.Undefined → featured p = false))
  ∧ (∀ fileId id oid body file p w r w',
       castObjectId id = Some oid → portfolios w !! oid = Some p →
       update_portfolio fileId id body file w = (r, w') → status r = 200 →
       b_featured body ≠ JS.Undefined →
       ∃ p', portfolios w' !! oid = Some p'
         ∧ (featured p' = true
            ↔ b_featured body = JS.Bool true ∨ b_featured body = JS.Str "true")).
Proof.
  split.
  - intros now oid fileId body file w r w' Hcr Hs.
    destruct (create_portfolio_success _ _ _ _ _ _ _ _ Hcr Hs)
      as (d & Hd & _ & Hp & _).
    exists (new_Portfolio now d). rewrite Hp.
    split; [apply lookup_insert_eq|].
    assert (featured (new_Portfolio now d) = featured_flag (b_featured body))
      as ->.
    { unfold new_Portfolio.
      destruct (assign_paths (mkPortfolio "" "" "" None "" None "" [] false 0 0 now) d)
        as (_ & _ & _ & _ & _ & Hfe & _).
      rewrite Hfe, Hd. reflexivity. }
    split; [apply featured_flag_iff|]. now intros ->.
  - intros fileId id oid body file p w r w' Hc Hf Hu Hs Hne.
    destruct (update_portfolio_success _ _ _ _ _ _ _ _ _ Hc Hf Hu Hs)
      as (d & w1 & Hi & _ & _ & ->).
    exists (assign p d). simpl. split; [apply lookup_insert_eq|].
    destruct (assign_paths p d) as (_ & _ & _ & _ & _ & Hfe & _).
    destruct (update_image_keys _ _ _ _ _ _ _ Hi) as (_ & _ & _ & _ & _ & Efe & _).
    rewrite Hfe, Efe. unfold JS.strict_eq.
    rewrite bool_decide_eq_false_2 by assumption. simpl.
    apply featured_flag_iff.
Qed.

Lemma featured_iff_true_witness :
  let w' := (SampleCreate.created (JS.Str "True")).2 in
  ∃ p, portfolios w' !! Sample.id3 = Some p
    ∧ (featured p = true
       ↔ b_featured (SampleCreate.new_body (JS.Str "True")) = JS.Bool true
         ∨ b_featured (SampleCreate.new_body (JS.Str "True")) = JS.Str "true")
    ∧ (b_featured (SampleCreate.new_body (JS.Str "True")) = JS.Undefined →
       featured p = false).
Proof.
  intros w'.
  apply (proj1 (@featured_iff_true Sample.platform)
           3000 Sample.id3 Sample.blob2
           (SampleCreate.new_body (JS.Str "True")) None
           SampleCreate.empty_world
           (SampleCreate.created (JS.Str "True")).1 w');
    [vm_compute; reflexivity | vm_compute; reflexivity].
Defined.

(** The flag stored for a few values of the field. *)
Example featured_values :
  let stored v :=
    featured <$> portfolios (SampleCreate.created v).2 !! Sample.id3 in
  stored (JS.Bool true) = Some true
  ∧ stored (JS.Str "true") = Some true
  ∧ stored (JS.Str "True") = Some false
  ∧ stored (JS.Str "1") = Some false
  ∧ stored (JS.Str "false") = Some false
  ∧ stored (JS.Str "yes") = Some false
  ∧ stored (JS.Num 1) = Some false
  ∧ stored (JS.Bool false) = Some false
  ∧ stored JS.Undefined = Some false.
Proof. vm_compute. repeat split; reflexivity. Qed.

(** * Further properties *)

(** ** Every stored entry is valid *)

Section ValidWorld.
Context `{Platform}.

Lemma valid_world_save id p w r w' :
  valid_world w → save id p w = (r, w') → valid_world w'.
Proof.
  unfold save, valid_world. intros Hw.
  destruct (validate p) eqn:Hv; intros [= <- <-]; simpl; [|assumption].
  now apply map_Forall_insert_2.
Qed.

Lemma valid_world_gridfs ps g g' :
  valid_world (mkWorld ps g) → valid_world (mkWorld ps g').
Proof. exact id. Qed.

Lemma valid_world_same_portfolios w w' :
  portfolios w' = portfolios w → valid_world w → valid_world w'.
Proof. unfold valid_world. now intros ->. Qed.

Lemma valid_world_lookup w id p :
  valid_world w → portfolios w !! id = Some p → validate p = true.
Proof. intros Hw Hp. exact (Hw id p Hp). Qed.

(** The like route reads [increment] by its truthiness, and takes an
    absent field for [true]. *)
Lemma like_portfolio_flag id (v : JS.value) w :
  like_portfolio id v w = like_portfolio id (JS.Bool (increment_flag v)) w.
Proof.
  unfold like_portfolio, increment_flag, try_catch.
  destruct (castObjectId id) as [oid|]; [|reflexivity].
  unfold mbind, M_bind, findById.
  destruct (portfolios w !! oid) as [p|]; [|reflexivity].
  unfold toggleLike. destruct v as [| |b|n|s]; try reflexivity.
Qed.

Lemma create_portfolio_valid now oid fileId body file w :
  valid_world w → valid_world (create_portfolio now oid fileId body file w).2.
Proof.
  intros Hw. rewrite create_portfolio_eq.
  destruct (create_image fileId body file (portfolio_data body) w)
    as [[e|d] w1] eqn:Hi.
  - simpl. unfold create_image in Hi. destruct file as [f|].
    + unfold mbind, M_bind, saveToGridFS in Hi.
      destruct (gridfs w); [discriminate|]. now injection Hi as _ <-.
    + unfold mret, M_ret in Hi.
      destruct (JS.truthy_str (b_imageBase64 body)); discriminate.
  - destruct (create_image_inv _ _ _ _ _ _ _ Hi) as [Hp _].
    destruct (validate (new_Portfolio now d)) eqn:Hv; simpl.
    + unfold valid_world. simpl. rewrite Hp. now apply map_Forall_insert_2.
    + now apply (valid_world_same_portfolios w).
Qed.

Lemma update_portfolio_valid fileId id body file w :
  valid_world w → valid_world (update_portfolio fileId id body file w).2.
Proof.
  intros Hw. destruct (castObjectId id) as [oid|] eqn:Hc.
  - destruct (portfolios w !! oid) as [p|] eqn:Hf.
    + rewrite (update_portfolio_found _ _ _ _ _ _ _ Hc Hf).
      destruct (update_image p fileId body file (update_data body) w)
        as [[e|d] w1] eqn:Hi;
        pose proof (update_image_portfolios _ _ _ _ _ _ _ _ Hi) as Hp.
      * now apply (valid_world_same_portfolios w).
      * destruct (validate (assign p d)) eqn:Hv; simpl.
        -- unfold valid_world. simpl. rewrite Hp. now apply map_Forall_insert_2.
        -- now apply (valid_world_same_portfolios w).
    + unfold update_portfolio, try_catch. rewrite Hc.
      unfold mbind, M_bind, findById. now rewrite Hf.
  - unfold update_portfolio, try_catch. now rewrite Hc.
Qed.

Lemma get_portfolio_valid id w :
  valid_world w → valid_world (get_portfolio id w).2.
Proof.
  intros Hw. destruct (get_portfolio id w) as [r w'] eqn:Hg.
  destruct (get_portfolio_cases id w r w' Hg)
    as [(_ & oid & p & _ & _ & Hv & _ & ->)|[_ ->]]; simpl; [|assumption].
  unfold valid_world. simpl. apply map_Forall_insert_2; [|assumption].
  now rewrite validate_set_views.
Qed.

Lemma like_portfolio_valid id v w :
  valid_world w → valid_world (like_portfolio id v w).2.
Proof.
  intros Hw. rewrite like_portfolio_flag.
  destruct (castObjectId id) as [oid|] eqn:Hc.
  - destruct (portfolios w !! oid) as [p|] eqn:Hf.
    + rewrite (like_portfolio_found id oid p w _ Hc Hf).
      destruct (validate p) eqn:Hv; simpl; [|assumption].
      unfold valid_world. simpl. apply map_Forall_insert_2; [|assumption].
      now rewrite validate_set_likes.
    + unfold like_portfolio, try_catch. simpl. rewrite Hc.
      unfold mbind, M_bind, findById. now rewrite Hf.
  - unfold like_portfolio, try_catch. simpl. now rewrite Hc.
Qed.

Lemma delete_portfolio_portfolios id w :
  portfolios (delete_portfolio id w).2 = portfolios w
  ∨ ∃ oid, castObjectId id = Some oid
           ∧ portfolios (delete_portfolio id w).2 = delete oid (portfolios w).
Proof.
  unfold delete_portfolio, try_catch.
  destruct (castObjectId id) as [oid|]; [|now left].
  unfold mbind, M_bind, findById.
  destruct (portfolios w !! oid) as [p|]; [|now left].
  right. exists oid. split; [reflexivity|].
  destruct (imageId p) as [fid|].
  - rewrite try_delete_eq. reflexivity.
  - reflexivity.
Qed.

Lemma delete_portfolio_valid id w :
  valid_world w → valid_world (delete_portfolio id w).2.
Proof.
  intros Hw. destruct (delete_portfolio_portfolios id w) as [Hp|(oid & _ & Hp)].
  - now apply (valid_world_same_portfolios w).
  - unfold valid_world. rewrite Hp. now apply map_Forall_delete.
Qed.

(** X1. When every stored entry passes the schema validation, it is
    still so after any request to the create, update, read, like, delete
    and list routes, whatever the request and however it is answered. *)
Theorem routes_keep_entries_valid (w : World) :
  valid_world w →
  (∀ now oid fileId body file,
     valid_world (create_portfolio now oid fileId body file w).2)
  ∧ (∀ fileId id body file,
       valid_world (update_portfolio fileId id body file w).2)
  ∧ (∀ id, valid_world (get_portfolio id w).2)
  ∧ (∀ id increment, valid_world (like_portfolio id increment w).2)
  ∧ (∀ id, valid_world (delete_portfolio id w).2)
  ∧ (∀ composer q r w',
       list_portfolios composer q w = Some (r, w') → valid_world w').
Proof.
  intros Hw. repeat apply conj.
  - intros. now apply create_portfolio_valid.
  - intros. now apply update_portfolio_valid.
  - intros. now apply get_portfolio_valid.
  - intros. now apply like_portfolio_valid.
  - intros. now apply delete_portfolio_valid.
  - intros composer q r w' Hl.
    destruct (list_portfolios_inv _ _ _ _ _ Hl) as (p & l & Hp & Hl' & Hp1 & Hl1).
    rewrite (list_portfolios_eq _ _ _ _ _ Hp Hl' Hp1 Hl1) in Hl.
    now injection Hl as _ <-.
Qed.
End ValidWorld.

Lemma sample_two_entries_valid : @valid_world Sample.platform Sample.two_entries.
Proof.
  unfold valid_world, Sample.two_entries. simpl.
  apply map_Forall_insert_2; [reflexivity|].
  apply map_Forall_insert_2; [reflexivity|]. apply map_Forall_empty.
Defined.

Lemma routes_keep_entries_valid_witness :
  @valid_world Sample.platform Sample.two_entries
  ∧ @valid_world Sample.platform
      (@like_portfolio Sample.platform Sample.id2 (JS.Str "yes")
         Sample.two_entries).2.
Proof.
  split; [exact sample_two_entries_valid|].
  apply (proj1 (proj2 (proj2 (proj2
           (@routes_keep_entries_valid Sample.platform Sample.two_entries
              sample_two_entries_valid))))).
Defined.

(** ** Creation: what gets stored, and what is left behind *)

Section CreateMore.
Context `{Platform}.

(** What the validators ask of a document. *)
Lemma validate_true p :
  validate p = true →
  title p ≠ "" ∧ JS.length (title p) <= 200
  ∧ description p ≠ "" ∧ JS.length (description p) <= 2000
  ∧ category p ∈ category_values
  ∧ Forall (λ t, JS.length t <= 50) (tags p)
  ∧ (∀ u, url p = Some u → u ≠ "" → url_parses u = true).
Proof.
  unfold validate, required, maxlength, url_validator.
  rewrite !andb_true_iff, !negb_true_iff, !bool_decide_eq_false,
    bool_decide_eq_true, !Z.leb_le.
  intros (((((((Ht & Htl) & Hd) & Hdl) & Hu) & _) & Hc) & Hta).
  repeat apply conj; auto.
  - rewrite forallb_forall in Hta. apply Forall_forall. intros t Hin.
    apply Z.leb_le, Hta. now apply list_elem_of_In.
  - intros u Hu' Hne. rewrite Hu' in Hu. simpl in Hu.
    now rewrite bool_decide_eq_false_2 in Hu.
Qed.

(** The image part of the creation adds an image key and nothing else;
    with an upload it puts the file in the bucket. *)
Lemma create_image_keys fileId body file d w d' w' :
  create_image fileId body file d w = (inr d', w') →
  d_title d' = d_title d ∧ d_description d' = d_description d
  ∧ d_url d' = d_url d ∧ d_category d' = d_category d
  ∧ d_tags d' = d_tags d
  ∧ (∀ f, file = Some f →
       ∃ bucket, gridfs w = Some bucket
         ∧ gridfs w' = Some (<[fileId := mkGridFile (originalname f)
                                            (mimetype f) (buffer f)]> bucket)
         ∧ d_imageId d' = Some (Some fileId)
         ∧ d_imageBase64 d' = d_imageBase64 d)
  ∧ (file = None → w' = w ∧ d_imageId d' = d_imageId d).
Proof.
  unfold create_image. destruct file as [f|].
  - unfold mbind, M_bind, saveToGridFS.
    destruct (gridfs w) as [bucket|]; [|discriminate].
    unfold mret, M_ret. intros [= <- <-]. repeat apply conj; try reflexivity.
    + intros f' [= <-]. exists bucket. auto.
    + discriminate.
  - unfold mret, M_ret. destruct (JS.truthy_str (b_imageBase64 body)).
    + destruct (b_imageBase64 body); intros [= <- <-];
        repeat apply conj; try reflexivity; try discriminate; auto.
    + intros [= <- <-]. repeat apply conj; try reflexivity; try discriminate; auto.
Qed.

(** The image part of the creation fails only when an upload meets a
    blob store out of reach, and then it has changed nothing. *)
Lemma create_image_error fileId body file d w e w' :
  create_image fileId body file d w = (inl e, w') →
  w' = w ∧ gridfs w = None ∧ file ≠ None ∧ validation_or_server_error e
                                           = mkResponse 500 false NoData.
Proof.
  unfold create_image. destruct file as [f|].
  - unfold mbind, M_bind, saveToGridFS.
    destruct (gridfs w) as [bucket|] eqn:Hg; [discriminate|].
    intros [= <- <-]. auto.
  - unfold mret, M_ret. destruct (JS.truthy_str (b_imageBase64 body)); discriminate.
Qed.

(** X2. The create route answers 201, 400 or 500. Unless it answers 201
    the collection is as it was. When it answers 201, the body had a
    title and a description that are not empty once trimmed, of at most
    200 and 2000 characters, and a category among the seven known ones;
    the collection has gained one entry, under the new identifier, with
    these values, with no views, no likes and no legacy image, created
    [now]. *)
Theorem create_stores_only_valid now oid fileId body file w r w' :
  create_portfolio now oid fileId body file w = (r, w') →
  (status r = 201 ∨ status r = 400 ∨ status r = 500)
  ∧ (status r ≠ 201 → portfolios w' = portfolios w)
  ∧ (status r = 201 →
     ∃ t de c p,
       b_title body = Some t ∧ b_description body = Some de
       ∧ b_category body = Some c
       ∧ js_trim t ≠ "" ∧ JS.length (js_trim t) <= 200
       ∧ js_trim de ≠ "" ∧ JS.length (js_trim de) <= 2000
       ∧ c ∈ category_values
       ∧ portfolios w' = <[oid := p]> (portfolios w)
       ∧ title p = js_trim t ∧ description p = js_trim de ∧ category p = c
       ∧ views p = 0 ∧ likes p = 0 ∧ image p = "" ∧ createdAt p = now).
Proof.
  rewrite create_portfolio_eq.
  destruct (create_image fileId body file (portfolio_data body) w)
    as [[e|d] w1] eqn:Hi.
  - destruct (create_image_error _ _ _ _ _ _ _ Hi) as (-> & _ & _ & He).
    rewrite He. intros [= <- <-]. simpl.
    repeat apply conj; auto; discriminate.
  - destruct (create_image_keys _ _ _ _ _ _ _ Hi) as (Et & Ed & _ & Ec & _).
    destruct (create_image_inv _ _ _ _ _ _ _ Hi) as [Hp _].
    destruct (validate (new_Portfolio now d)) eqn:Hv; intros [= <- <-]; simpl.
    2:{ repeat apply conj; auto; discriminate. }
    split; [auto|]. split; [congruence|]. intros _.
    unfold new_Portfolio in *.
    destruct (assign_paths (mkPortfolio "" "" "" None "" None "" [] false 0 0 now) d)
      as (Ht & Hd & _ & Hc & _ & _ & _ & _ & Him & Hvi & Hli & Hcr).
    destruct (validate_true _ Hv) as (Vt & Vtl & Vd & Vdl & Vc & _).
    rewrite Ht, Et in Vt, Vtl. rewrite Hd, Ed in Vd, Vdl. rewrite Hc, Ec in Vc.
    simpl in *.
    destruct (b_title body) as [t|]; [|now simpl in Vt].
    destruct (b_description body) as [de|]; [|now simpl in Vd].
    destruct (b_category body) as [c|].
    2:{ simpl in Vc. exfalso. revert Vc. unfold category_values.
        rewrite !elem_of_cons, elem_of_nil. intuition discriminate. }
    simpl in *. eexists t, de, c, _. rewrite Hp.
    repeat apply conj; try reflexivity; try assumption.
    + now rewrite Ht, Et.
    + now rewrite Hd, Ed.
    + now rewrite Hc, Ec.
Qed.

(** X3. A create request that brings an upload and is then refused by
    the validation answers 400 and stores no entry, but the uploaded file
    stays in the bucket, with no entry referring to it. *)
Theorem create_refused_leaves_blob now oid fileId body f w bucket r w' :
  gridfs w = Some bucket →
  create_portfolio now oid fileId body (Some f) w = (r, w') →
  status r ≠ 201 →
  r = mkResponse 400 false NoData
  ∧ portfolios w' = portfolios w
  ∧ gridfs w' = Some (<[fileId := mkGridFile (originalname f) (mimetype f)
                                             (buffer f)]> bucket).
Proof.
  intros Hg. rewrite create_portfolio_eq.
  destruct (create_image fileId body (Some f) (portfolio_data body) w)
    as [[e|d] w1] eqn:Hi.
  - destruct (create_image_error _ _ _ _ _ _ _ Hi) as (_ & Hn & _). congruence.
  - destruct (create_image_keys _ _ _ _ _ _ _ Hi) as (_ & _ & _ & _ & _ & Hf & _).
    destruct (create_image_inv _ _ _ _ _ _ _ Hi) as [Hp _].
    destruct (Hf f eq_refl) as (b & Hb & Hg' & _).
    rewrite Hg in Hb. injection Hb as <-.
    destruct (validate (new_Portfolio now d)); intros [= <- <-] Hs; simpl in *.
    + congruence.
    + auto.
Qed.
End CreateMore.

Lemma create_stores_only_valid_witness :
  let r := (SampleCreate.created JS.Undefined).1 in
  let w' := (SampleCreate.created JS.Undefined).2 in
  (status r = 201 ∨ status r = 400 ∨ status r = 500)
  ∧ (status r ≠ 201 → portfolios w' = portfolios SampleCreate.empty_world).
Proof.
  intros r w'.
  pose proof (@create_stores_only_valid Sample.platform 3000 Sample.id3
                Sample.blob2 (SampleCreate.new_body JS.Undefined) None
                SampleCreate.empty_world r w' eq_refl) as (H1 & H2 & _).
  exact (conj H1 H2).
Defined.

Lemma create_refused_leaves_blob_witness :
  let out := @create_portfolio Sample.platform 3000 Sample.id3 Sample.blob2
               Sample.empty_body (Some Sample.png) SampleCreate.empty_world in
  out.1 = mkResponse 400 false NoData
  ∧ portfolios out.2 = portfolios SampleCreate.empty_world
  ∧ gridfs out.2
    = Some (<[Sample.blob2 := mkGridFile (originalname Sample.png)
                                (mimetype Sample.png) (buffer Sample.png)]> ∅).
Proof.
  intros out.
  apply (@create_refused_leaves_blob Sample.platform 3000 Sample.id3
           Sample.blob2 Sample.empty_body Sample.png
           SampleCreate.empty_world ∅ out.1 out.2);
    [reflexivity | reflexivity | vm_compute; discriminate].
Defined.

(** ** Serving images *)

Section Images.
Context `{Platform}.

(** The image route never writes; it answers 400 for a string that is no
    ObjectId, 404 when the bucket is out of reach or has no such file,
    and otherwise sends the stored bytes. *)
Lemma get_image_eq s w :
  get_image s w
  = (match castObjectId s with
     | None => ImageError 400
     | Some oid =>
         match gridfs w ≫= (λ bucket, bucket !! oid) with
         | Some f =>
             ImageSent (contentType f) (Z.of_nat (length (content f)))
                       "public, max-age=31536000" (content f)
         | None => ImageError 404
         end
     end, w).
Proof.
  unfold get_image, try_catch. destruct (castObjectId s) as [oid|]; [|reflexivity].
  unfold mbind at 1, M_bind at 1, getFileInfo.
  destruct (gridfs w) as [bucket|] eqn:Hg; simpl; [|reflexivity].
  destruct (bucket !! oid) as [f|] eqn:Hf; [|reflexivity].
  unfold mbind, M_bind, getFromGridFS. rewrite Hg, Hf. reflexivity.
Qed.

(** X4. A create request with an upload that is answered 201: the new
    entry refers to the uploaded file, its [imageUrl] is the path of the
    image route for that file, and the image route, asked for that file,
    sends back the uploaded bytes, with the MIME type of the upload as
    [Content-Type] and their number as [Content-Length]. *)
Theorem created_upload_is_served now oid fileId body f w r w' s :
  create_portfolio now oid fileId body (Some f) w = (r, w') →
  status r = 201 → castObjectId s = Some fileId →
  ∃ p, portfolios w' !! oid = Some p
    ∧ imageId p = Some fileId
    ∧ imageUrl p = "/api/portfolio/image/" +:+ fileId
    ∧ get_image s w'
      = (ImageSent (mimetype f) (Z.of_nat (length (buffer f)))
                   "public, max-age=31536000" (buffer f), w').
Proof.
  rewrite create_portfolio_eq.
  destruct (create_image fileId body (Some f) (portfolio_data body) w)
    as [[e|d] w1] eqn:Hi.
  { intros [= <- <-]. destruct e; discriminate. }
  destruct (create_image_keys _ _ _ _ _ _ _ Hi) as (_ & _ & _ & _ & _ & Hf & _).
  destruct (Hf f eq_refl) as (bucket & Hg & Hg1 & Hid & Hb64).
  destruct (validate (new_Portfolio now d)) eqn:Hv; intros [= <- <-] Hs Hc;
    [|discriminate].
  exists (new_Portfolio now d). simpl. split; [apply lookup_insert_eq|].
  unfold new_Portfolio.
  destruct (assign_paths (mkPortfolio "" "" "" None "" None "" [] false 0 0 now) d)
    as (_ & _ & _ & _ & _ & _ & Eid & Eb64 & _).
  rewrite Hid in Eid. rewrite Hb64 in Eb64. simpl in Eid, Eb64.
  split; [exact Eid|]. split.
  - unfold imageUrl. rewrite Eb64, Eid. reflexivity.
  - rewrite get_image_eq, Hc. simpl. rewrite Hg1. simpl.
    rewrite lookup_insert_eq. reflexivity.
Qed.

(** X5. An update with an upload that is answered 200, of an entry that
    referred to a file [old]: the image route serves the new file under
    the new reference, and answers 404 for [old], which is gone. *)
Theorem updated_upload_replaces_image fileId id oid body f p old w r w' s s' :
  castObjectId id = Some oid → portfolios w !! oid = Some p →
  imageId p = Some old → old ≠ fileId →
  update_portfolio fileId id body (Some f) w = (r, w') → status r = 200 →
  castObjectId s = Some fileId → castObjectId s' = Some old →
  get_image s w'
  = (ImageSent (mimetype f) (Z.of_nat (length (buffer f)))
               "public, max-age=31536000" (buffer f), w')
  ∧ get_image s' w' = (ImageError 404, w').
Proof.
  intros Hc Hf Hold Hne Hu Hst Hs Hs'.
  destruct (update_portfolio_success _ _ _ _ _ _ _ _ _ Hc Hf Hu Hst)
    as (d & w1 & Hi & _ & _ & ->).
  destruct (gridfs w) as [bucket|] eqn:Hg.
  2:{ destruct (update_image_file_unreachable p fileId body f
                  (update_data body) w Hg) as [e He]. congruence. }
  rewrite (update_image_file _ _ _ _ _ _ _ Hg) in Hi. injection Hi as <- <-.
  rewrite !get_image_eq, Hs, Hs'. simpl.
  rewrite lookup_insert_eq, Hold. simpl.
  rewrite lookup_insert_ne by congruence. rewrite lookup_delete_eq. auto.
Qed.

(** X6. An update with an upload that the validation refuses, of an
    entry that referred to a file [old], with the bucket in reach: the
    answer is 400 and the entry is as it was, so it still refers to
    [old]; but [old] has been deleted and the new file stored. The image
    route answers 404 for the reference the entry holds. *)
Theorem refused_update_leaves_dead_reference
    fileId id oid body f p old bucket w r w' s' :
  castObjectId id = Some oid → portfolios w !! oid = Some p →
  imageId p = Some old → old ≠ fileId → gridfs w = Some bucket →
  update_portfolio fileId id body (Some f) w = (r, w') → status r ≠ 200 →
  castObjectId s' = Some old →
  r = mkResponse 400 false NoData
  ∧ portfolios w' = portfolios w
  ∧ imageId <$> portfolios w' !! oid = Some (Some old)
  ∧ gridfs w'
    = Some (<[fileId := mkGridFile (originalname f) (mimetype f) (buffer f)]>
              (delete old bucket))
  ∧ get_image s' w' = (ImageError 404, w').
Proof.
  intros Hc Hf Hold Hne Hg Hu Hst Hs'.
  rewrite (update_portfolio_found _ _ _ _ _ _ _ Hc Hf) in Hu.
  rewrite (update_image_file _ _ _ _ _ _ _ Hg) in Hu.
  match type of Hu with
  | context [validate ?x] => destruct (validate x)
  end; injection Hu as <- <-; simpl in *; [congruence|].
  rewrite Hold. simpl. rewrite Hf. simpl. rewrite Hold.
  repeat apply conj; try reflexivity.
  rewrite get_image_eq, Hs'. simpl.
  rewrite lookup_insert_ne by congruence. now rewrite lookup_delete_eq.
Qed.

(** X7. Deleting an entry that refers to a file, with the bucket in
    reach: afterwards the read route answers 404 for the entry and the
    image route answers 404 for the file. *)
Theorem deleted_entry_and_image_are_gone id oid p fileId bucket w s :
  castObjectId id = Some oid → portfolios w !! oid = Some p →
  imageId p = Some fileId → gridfs w = Some bucket →
  castObjectId s = Some fileId →
  let w' := (delete_portfolio id w).2 in
  get_portfolio id w' = (mkResponse 404 false NoData, w')
  ∧ get_image s w' = (ImageError 404, w').
Proof.
  intros Hc Hf Hi Hg Hs w'. subst w'.
  unfold delete_portfolio, try_catch. rewrite Hc.
  unfold mbind, M_bind, findById. rewrite Hf, Hi, try_delete_eq.
  unfold findByIdAndDelete, mret, M_ret. simpl. split.
  - apply (get_portfolio_not_found id oid); [assumption|].
    simpl. apply lookup_delete_eq.
  - rewrite get_image_eq, Hs. simpl. rewrite Hg. simpl.
    now rewrite lookup_delete_eq.
Qed.
End Images.

Lemma created_upload_is_served_witness :
  let out := @create_portfolio Sample.platform 3000 Sample.id3 Sample.blob2
               (SampleCreate.new_body JS.Undefined) (Some Sample.png)
               SampleCreate.empty_world in
  ∃ p, portfolios out.2 !! Sample.id3 = Some p
    ∧ imageId p = Some Sample.blob2
    ∧ imageUrl p = "/api/portfolio/image/" +:+ Sample.blob2
    ∧ @get_image Sample.platform Sample.blob2 out.2
      = (ImageSent (mimetype Sample.png)
                   (Z.of_nat (length (buffer Sample.png)))
                   "public, max-age=31536000" (buffer Sample.png), out.2).
Proof.
  intros out.
  apply (@created_upload_is_served Sample.platform 3000 Sample.id3
           Sample.blob2 (SampleCreate.new_body JS.Undefined) Sample.png
           SampleCreate.empty_world out.1 out.2 Sample.blob2);
    [reflexivity | vm_compute; reflexivity | reflexivity].
Defined.

Lemma updated_upload_replaces_image_witness :
  let w' := SampleUpdate.upload.2 in
  @get_image Sample.platform Sample.blob2 w'
  = (ImageSent (mimetype Sample.png) (Z.of_nat (length (buffer Sample.png)))
               "public, max-age=31536000" (buffer Sample.png), w')
  ∧ @get_image Sample.platform Sample.blob1 w' = (ImageError 404, w').
Proof.
  intros w'.
  apply (@updated_upload_replaces_image Sample.platform Sample.blob2
           Sample.id3 Sample.id3 Sample.empty_body Sample.png
           (set_imageId (Some Sample.blob1) Sample.culf_ai) Sample.blob1
           SampleUpdate.with_blob SampleUpdate.upload.1 w'
           Sample.blob2 Sample.blob1);
    [reflexivity | vm_compute; reflexivity | reflexivity
    | vm_compute; discriminate | reflexivity | vm_compute; reflexivity
    | reflexivity | reflexivity].
Defined.

Lemma refused_update_leaves_dead_reference_witness :
  let body := mkBody (Some "") None None None None JS.Undefined None in
  let out := @update_portfolio Sample.platform Sample.blob2 Sample.id3 body
               (Some Sample.png) SampleUpdate.with_blob in
  out.1 = mkResponse 400 false NoData
  ∧ portfolios out.2 = portfolios SampleUpdate.with_blob
  ∧ imageId <$> portfolios out.2 !! Sample.id3 = Some (Some Sample.blob1)
  ∧ gridfs out.2
    = Some (<[Sample.blob2 := mkGridFile (originalname Sample.png)
                                (mimetype Sample.png) (buffer Sample.png)]>
              (delete Sample.blob1
                 (<[Sample.blob1 := mkGridFile "old.png" "image/png" []]> ∅)))
  ∧ @get_image Sample.platform Sample.blob1 out.2 = (ImageError 404, out.2).
Proof.
  intros body out.
  apply (@refused_update_leaves_dead_reference Sample.platform Sample.blob2
           Sample.id3 Sample.id3 body Sample.png
           (set_imageId (Some Sample.blob1) Sample.culf_ai) Sample.blob1
           (<[Sample.blob1 := mkGridFile "old.png" "image/png" []]> ∅)
           SampleUpdate.with_blob out.1 out.2 Sample.blob1);
    [reflexivity | vm_compute; reflexivity | reflexivity
    | vm_compute; discriminate | reflexivity | reflexivity
    | vm_compute; discriminate | reflexivity].
Defined.

Lemma deleted_entry_and_image_are_gone_witness :
  let w' := (@delete_portfolio Sample.platform Sample.id3
               SampleUpdate.with_blob).2 in
  @get_portfolio Sample.platform Sample.id3 w'
  = (mkResponse 404 false NoData, w')
  ∧ @get_image Sample.platform Sample.blob1 w' = (ImageError 404, w').
Proof.
  apply (@deleted_entry_and_image_are_gone Sample.platform Sample.id3
           Sample.id3 (set_imageId (Some Sample.blob1) Sample.culf_ai)
           Sample.blob1
           (<[Sample.blob1 := mkGridFile "old.png" "image/png" []]> ∅)
           SampleUpdate.with_blob Sample.blob1);
    [reflexivity | vm_compute; reflexivity | reflexivity | reflexivity
    | reflexivity].
Defined.

(** ** Counters *)

Section Counters.
Context `{Platform}.



Lemma views_set_likes v p : views (set_likes v p) = views p.
Proof. now destruct p. Qed.

Lemma likes_set_views v p : likes (set_views v p) = likes p.
Proof. now destruct p. Qed.


(** X9. The like route decides on the truthiness of [increment], and
    takes an absent field for a like: a request with the string [false]
    or any non-zero number likes, one with [null], [0] or the empty string
    unlikes. *)
Theorem like_reads_truthiness id w :
  (∀ v, like_portfolio id v w = like_portfolio id (JS.Bool (increment_flag v)) w)
  ∧ like_portfolio id JS.Undefined w = like_portfolio id (JS.Bool true) w
  ∧ like_portfolio id (JS.Str "false") w = like_portfolio id (JS.Bool true) w
  ∧ (∀ n, n ≠ 0 →
       like_portfolio id (JS.Num n) w = like_portfolio id (JS.Bool true) w)
  ∧ like_portfolio id JS.Null w = like_portfolio id (JS.Bool false) w
  ∧ like_portfolio id (JS.Num 0) w = like_portfolio id (JS.Bool false) w
  ∧ like_portfolio id (JS.Str "") w = like_portfolio id (JS.Bool false) w.
Proof.
  repeat apply conj; try (intros; now rewrite like_portfolio_flag).
  intros n Hn. rewrite like_portfolio_flag. unfold increment_flag. simpl.
  destruct (Z.eqb_spec n 0); [contradiction|reflexivity].
Qed.

(** X10. The two counters are independent, and nothing else writes
    them: a read changes the likes of no entry, a like changes the views
    of no entry, and an entry that is there after a deletion is as it was
    before. *)
Theorem counters_are_independent (w : World) (k : ObjectId) :
  (∀ id, likes <$> portfolios (get_portfolio id w).2 !! k
         = likes <$> portfolios w !! k)
  ∧ (∀ id v, views <$> portfolios (like_portfolio id v w).2 !! k
             = views <$> portfolios w !! k)
  ∧ (∀ id p, portfolios (delete_portfolio id w).2 !! k = Some p →
             portfolios w !! k = Some p).
Proof.
  repeat apply conj.
  - intros id. destruct (get_portfolio id w) as [r w'] eqn:Hg.
    destruct (get_portfolio_cases id w r w' Hg)
      as [(_ & oid & p & _ & Hf & _ & _ & ->)|[_ ->]]; [|reflexivity].
    simpl. destruct (decide (oid = k)) as [<-|Hne].
    + rewrite lookup_insert_eq, Hf. simpl. now rewrite likes_set_views.
    + now rewrite lookup_insert_ne.
  - intros id v. rewrite like_portfolio_flag.
    destruct (castObjectId id) as [oid|] eqn:Hc.
    + destruct (portfolios w !! oid) as [p|] eqn:Hf.
      * rewrite (like_portfolio_found id oid p w _ Hc Hf).
        destruct (validate p); [|reflexivity]. simpl.
        destruct (decide (oid = k)) as [<-|Hne].
        -- rewrite lookup_insert_eq, Hf. simpl. now rewrite views_set_likes.
        -- now rewrite lookup_insert_ne.
      * unfold like_portfolio, try_catch. simpl. rewrite Hc.
        unfold mbind, M_bind, findById. now rewrite Hf.
    + unfold like_portfolio, try_catch. simpl. now rewrite Hc.
  - intros id p. destruct (delete_portfolio_portfolios id w) as [->|(oid & _ & ->)].
    + auto.
    + intros Hk. apply lookup_delete_Some in Hk. tauto.
Qed.
End Counters.


(** ** Pages *)

Lemma pages_upto_take {A} (l n : nat) (all : list A) :
  pages_upto l n all = take (n * l) all.
Proof.
  unfold pages_upto. induction n as [|n IH].
  - reflexivity.
  - rewrite seq_S, bind_app, IH. simpl. rewrite app_nil_r. unfold page_of.
    replace ((S n - 1) * l)%nat with (n * l)%nat by lia.
    rewrite take_take_drop. f_equal. lia.
Qed.

Lemma length_page_of {A} (l p : nat) (all : list A) :
  length (page_of l p all) = (l `min` (length all - (p - 1) * l))%nat.
Proof. unfold page_of. now rewrite length_take, length_drop. Qed.

Section Pages.
Context `{Platform}.

(** The sorted matching documents depend on the filter parameters only,
    not on the page asked for. *)
Lemma sorted_matching_filters composer q q' w :
  list_filters q = list_filters q' →
  sorted_matching composer q w = sorted_matching composer q' w.
Proof. unfold sorted_matching. now intros ->. Qed.

(** X11. With [l] entries per page, the list route answers page [p] with
    the [p]-th slice of [l] of the sorted matching documents. The slices
    for the pages 1 to [totalPages], one after the other, are exactly the
    sorted matching documents: no entry is left out and none comes
    twice. Every page before [totalPages] is full, page [totalPages] is
    not empty, and every page after it is. *)
Theorem pages_make_up_the_result composer q w p l :
  page_number q = Some p → limit_number q = Some l → 1 <= p → 1 <= l →
  let all := sorted_matching composer q w in
  ∃ docs pg,
    list_portfolios composer q w
      = Some (mkResponse 200 true (DataList docs pg), w)
    ∧ docs = page_of (Z.to_nat l) (Z.to_nat p) all
    ∧ pages_upto (Z.to_nat l) (Z.to_nat (totalPages pg)) all = all
    ∧ Z.of_nat (length docs) <= l
    ∧ (p < totalPages pg → Z.of_nat (length docs) = l)
    ∧ (p = totalPages pg → docs ≠ [])
    ∧ (totalPages pg < p → docs = []).
Proof.
  intros Hp Hl Hp1 Hl1 all.
  rewrite (list_portfolios_eq composer q w p l Hp Hl Hp1 Hl1).
  eexists _, _. split; [reflexivity|]. simpl.
  rewrite <-sorted_matching_length. fold all.
  pose proof (ceil_div_bounds (Z.of_nat (length all)) l ltac:(lia)) as [Hlo Hhi].
  set (T := JS.ceil_div (Z.of_nat (length all)) l) in *.
  assert (Z.to_nat ((p - 1) * l) = ((Z.to_nat p - 1) * Z.to_nat l)%nat) as Hskip
    by nia.
  assert (take (Z.to_nat l) (drop (Z.to_nat ((p - 1) * l)) all)
          = page_of (Z.to_nat l) (Z.to_nat p) all) as ->
    by (unfold page_of; now rewrite Hskip).
  split; [reflexivity|].
  split.
  { rewrite pages_upto_take. apply take_ge. nia. }
  rewrite length_page_of.
  repeat apply conj.
  - lia.
  - intros Hlt. nia.
  - intros -> Hnil. apply (f_equal length) in Hnil.
    rewrite length_page_of in Hnil. simpl in Hnil. nia.
  - intros Hgt. apply nil_length_inv. rewrite length_page_of. nia.
Qed.

(** X12. Every entry the list route shows is stored, under the
    identifier shown, and meets the composed conditions; no identifier is
    shown twice; every stored entry that meets the conditions is among
    the sorted matching documents that the pages slice; and [totalItems]
    is their number. *)
Theorem listed_entries_are_the_matching_ones composer q w r w' docs pg :
  list_portfolios composer q w = Some (r, w') →
  data r = DataList docs pg →
  let c := q_conditions (composer (list_filters q)) in
  (∀ d, d ∈ docs → portfolios w !! d.1 = Some d.2 ∧ matches c d.2 = true)
  ∧ NoDup docs.*1
  ∧ (∀ id p, portfolios w !! id = Some p → matches c p = true →
       (id, p) ∈ sorted_matching composer q w)
  ∧ totalItems pg = Z.of_nat (length (sorted_matching composer q w)).
Proof.
  intros Hr Hd c.
  destruct (list_portfolios_inv _ _ _ _ _ Hr) as (p & l & Hp & Hl & Hp1 & Hl1).
  rewrite (list_portfolios_eq _ _ _ _ _ Hp Hl Hp1 Hl1) in Hr.
  injection Hr as <- <-. simpl in Hd. injection Hd as <- <-.
  assert (sorted_matching composer q w ≡ₚ matching c w) as Hperm
    by (unfold sorted_matching; apply merge_sort_Permutation).
  assert (∀ d, d ∈ matching c w ↔
               portfolios w !! d.1 = Some d.2 ∧ matches c d.2 = true) as Hm.
  { intros d. unfold matching. rewrite list_elem_of_In, filter_In.
    rewrite <-list_elem_of_In, elem_of_map_to_list'. tauto. }
  assert (take (Z.to_nat l) (drop (Z.to_nat ((p - 1) * l))
            (sorted_matching composer q w))
          `sublist_of` sorted_matching composer q w) as Hsub.
  { etrans; [apply sublist_take|apply sublist_drop]. }
  repeat apply conj.
  - intros d Hin. apply Hm. rewrite <-Hperm. eapply elem_of_sublist; eauto.
  - eapply sublist_NoDup; [|apply fmap_sublist, Hsub].
    rewrite Hperm. unfold matching.
    apply (sublist_NoDup _ ((map_to_list (portfolios w)).*1));
      [apply NoDup_fst_map_to_list|apply fmap_sublist].
    clear. induction (map_to_list (portfolios w)) as [|x xs IH]; simpl.
    + constructor.
    + destruct (matches c x.2); [now constructor|now apply sublist_cons].
  - intros id p0 Hf Hmt. rewrite Hperm. apply Hm. auto.
  - simpl. now rewrite sorted_matching_length.
Qed.
End Pages.

Lemma pages_make_up_the_result_witness :
  let q := mkListParams None None None None (Some "2") (Some "1") None in
  let w := Sample.two_entries in
  let all := @sorted_matching Sample.platform findWithFilters q w in
  ∃ docs pg,
    @list_portfolios Sample.platform findWithFilters q w
      = Some (mkResponse 200 true (DataList docs pg), w)
    ∧ docs = page_of (Z.to_nat 1) (Z.to_nat 2) all
    ∧ pages_upto (Z.to_nat 1) (Z.to_nat (totalPages pg)) all = all
    ∧ Z.of_nat (length docs) <= 1
    ∧ (2 < totalPages pg → Z.of_nat (length docs) = 1)
    ∧ (2 = totalPages pg → docs ≠ [])
    ∧ (totalPages pg < 2 → docs = []).
Proof.
  intros q w all.
  apply (@pages_make_up_the_result Sample.platform findWithFilters q w 2 1);
    [reflexivity | reflexivity | lia | lia].
Defined.

Lemma listed_entries_are_the_matching_ones_witness :
  let q := mkListParams None None None None (Some "2") (Some "1") None in
  let w := Sample.two_entries in
  let docs := [(Sample.id2, Sample.culf_ai)] in
  let pg := mkPagination 2 2 2 1 false true in
  let c := q_conditions (findWithFilters (list_filters q)) in
  (∀ d, d ∈ docs →
     portfolios w !! d.1 = Some d.2 ∧ @matches Sample.platform c d.2 = true)
  ∧ NoDup docs.*1
  ∧ (∀ id p, portfolios w !! id = Some p →
       @matches Sample.platform c p = true →
       (id, p) ∈ @sorted_matching Sample.platform findWithFilters q w)
  ∧ totalItems pg
    = Z.of_nat (length (@sorted_matching Sample.platform findWithFilters q w)).
Proof.
  intros q w docs pg.
  apply (@listed_entries_are_the_matching_ones Sample.platform
           findWithFilters q w (mkResponse 200 true (DataList docs pg)) w
           docs pg);
    [vm_compute; reflexivity | reflexivity].
Defined.

(** ** The two composers, and the sort parameter *)

Section Composers.
Context `{Platform}.

(** X13. The composer of [models/Portfolio.js] and the one of the
    serverless entry point select the same entries: for the same request
    the two list routes report the same pagination, and their sorted
    matching documents are the same up to order. In the mode 인기순 the
    two answers are the same. *)
Theorem composers_select_the_same q w p l :
  page_number q = Some p → limit_number q = Some l → 1 <= p → 1 <= l →
  ∃ docs docs' pg,
    list_portfolios findWithFilters q w
      = Some (mkResponse 200 true (DataList docs pg), w)
    ∧ list_portfolios Serverless.findWithFilters q w
      = Some (mkResponse 200 true (DataList docs' pg), w)
    ∧ sorted_matching findWithFilters q w
      ≡ₚ sorted_matching Serverless.findWithFilters q w
    ∧ (p_sort q = Some "인기순" → docs = docs').
Proof.
  intros Hp Hl Hp1 Hl1.
  rewrite !(list_portfolios_eq _ q w p l Hp Hl Hp1 Hl1).
  rewrite findWithFilters_conditions, serverless_conditions.
  eexists _, _, _. split; [reflexivity|]. split; [reflexivity|]. split.
  - unfold sorted_matching.
    rewrite !merge_sort_Permutation.
    now rewrite findWithFilters_conditions, serverless_conditions.
  - intros Hs. unfold sorted_matching.
    rewrite findWithFilters_conditions, serverless_conditions.
    assert (q_sort (findWithFilters (list_filters q))
            = q_sort (Serverless.findWithFilters (list_filters q))) as ->; [|done].
    unfold list_filters. rewrite Hs. reflexivity.
Qed.

(** X14. A [sort] parameter that names none of the modes 인기순, 이름순
    and 조회순 is answered like a request without [sort], by the list
    route over either composer: an unknown mode, and the empty string,
    fall back to the default order. *)
Theorem unknown_sort_is_default ca ta se s pg li fe (w : World) :
  s ≠ "인기순" → s ≠ "이름순" → s ≠ "조회순" →
  list_portfolios findWithFilters (mkListParams ca ta se (Some s) pg li fe) w
  = list_portfolios findWithFilters (mkListParams ca ta se None pg li fe) w
  ∧ list_portfolios Serverless.findWithFilters
      (mkListParams ca ta se (Some s) pg li fe) w
    = list_portfolios Serverless.findWithFilters
        (mkListParams ca ta se None pg li fe) w.
Proof.
  intros H1 H2 H3.
  assert (findWithFilters (list_filters (mkListParams ca ta se (Some s) pg li fe))
          = findWithFilters (list_filters (mkListParams ca ta se None pg li fe))
          ∧ Serverless.findWithFilters
              (list_filters (mkListParams ca ta se (Some s) pg li fe))
            = Serverless.findWithFilters
                (list_filters (mkListParams ca ta se None pg li fe)))
    as [E1 E2].
  { unfold findWithFilters, Serverless.findWithFilters, list_filters,
      filter_conditions. simpl.
    destruct (bool_decide (s = "")) eqn:E0; simpl.
    - split; reflexivity.
    - rewrite E0. simpl.
      rewrite (bool_decide_eq_false_2 _ H1), (bool_decide_eq_false_2 _ H2),
        (bool_decide_eq_false_2 _ H3).
      destruct (bool_decide (s = "최신순")); split; reflexivity. }
  unfold list_portfolios, list_body, page_number, limit_number. simpl.
  split.
  - change (list_filters (mkListParams ca ta se (Some s) pg li fe))
      with (list_filters (mkListParams ca ta se (Some s) pg li fe)).
    destruct (match pg with Some s0 => parseInt s0 | None => Some 1 end);
      [|reflexivity].
    destruct (match li with Some s0 => parseInt s0 | None => Some 10 end);
      [|reflexivity].
    destruct ((1 <=? z) && (1 <=? z0)); [|reflexivity].
    now rewrite E1.
  - destruct (match pg with Some s0 => parseInt s0 | None => Some 1 end);
      [|reflexivity].
    destruct (match li with Some s0 => parseInt s0 | None => Some 10 end);
      [|reflexivity].
    destruct ((1 <=? z) && (1 <=? z0)); [|reflexivity].
    now rewrite E2.
Qed.
End Composers.

Lemma composers_select_the_same_witness :
  let q := mkListParams None None None (Some "인기순") None None None in
  let w := Sample.two_entries in
  ∃ docs docs' pg,
    @list_portfolios Sample.platform findWithFilters q w
      = Some (mkResponse 200 true (DataList docs pg), w)
    ∧ @list_portfolios Sample.platform Serverless.findWithFilters q w
      = Some (mkResponse 200 true (DataList docs' pg), w)
    ∧ @sorted_matching Sample.platform findWithFilters q w
      ≡ₚ @sorted_matching Sample.platform Serverless.findWithFilters q w
    ∧ (p_sort q = Some "인기순" → docs = docs').
Proof.
  intros q w.
  apply (@composers_select_the_same Sample.platform q w 1 10);
    [reflexivity | reflexivity | lia | lia].
Defined.

Lemma unknown_sort_is_default_witness :
  let w := Sample.two_entries in
  @list_portfolios Sample.platform findWithFilters
    (mkListParams None None None (Some "oldest") None None None) w
  = @list_portfolios Sample.platform findWithFilters
      (mkListParams None None None None None None None) w
  ∧ @list_portfolios Sample.platform Serverless.findWithFilters
      (mkListParams None None None (Some "oldest") None None None) w
    = @list_portfolios Sample.platform Serverless.findWithFilters
        (mkListParams None None None None None None None) w.
Proof.
  intros w.
  apply (@unknown_sort_is_default Sample.platform None None None "oldest"
           None None None w);
    vm_compute; discriminate.
Defined.

(** ** Statistics *)

#[global] Instance count_ge_total : Total count_ge.
Proof. intros a b. unfold count_ge. lia. Qed.

#[global] Instance count_ge_trans : Transitive count_ge.
Proof. intros a b c. unfold count_ge. lia. Qed.

Lemma sum_count_occ_cons (a : string) (l ks : list string) :
  NoDup ks →
  sum_list_with (count_occ String.string_dec (a :: l)) ks
  = ((if decide (a ∈ ks) then 1 else 0)
     + sum_list_with (count_occ String.string_dec l) ks)%nat.
Proof.
  induction 1 as [|k ks Hk Hnd IH]; [reflexivity|].
  cbn [sum_list_with]. rewrite IH. cbn [count_occ].
  destruct (String.string_dec a k) as [E|Hne];
    destruct (decide (a ∈ ks)) as [Hin|Hin];
    destruct (decide (a ∈ k :: ks)) as [Hin'|Hin'];
    try lia; exfalso;
    first [ subst; contradiction
          | subst; apply Hin', list_elem_of_here
          | now apply Hin', list_elem_of_further
          | apply elem_of_cons in Hin' as [?|?]; congruence ].
Qed.

Lemma sum_count_occ (l ks : list string) :
  NoDup ks → (∀ x, x ∈ l → x ∈ ks) →
  sum_list_with (count_occ String.string_dec l) ks = length l.
Proof.
  intros Hnd. induction l as [|a l IH]; intros Hin.
  - clear. induction ks as [|k ks IH]; [reflexivity|].
    cbn [sum_list_with]. rewrite IH. reflexivity.
  - rewrite sum_count_occ_cons by assumption.
    rewrite decide_True by apply Hin, list_elem_of_here.
    rewrite IH; [reflexivity|]. intros x Hx. now apply Hin, list_elem_of_further.
Qed.

Lemma total_count_fmap (f : string → nat) (ks : list string) :
  total_count ((λ k, (k, Z.of_nat (f k))) <$> ks)
  = Z.of_nat (sum_list_with f ks).
Proof.
  induction ks as [|k ks IH]; [reflexivity|].
  rewrite fmap_cons. cbn [total_count foldr sum_list_with].
  fold (total_count ((λ k, (k, Z.of_nat (f k))) <$> ks)). rewrite IH.
  simpl. lia.
Qed.

Lemma total_count_Permutation (r1 r2 : list (string * Z)) :
  r1 ≡ₚ r2 → total_count r1 = total_count r2.
Proof. induction 1; simpl; lia. Qed.

(** One row for each distinct key, with the number of its occurrences;
    the counts add up to the number of keys. *)
Lemma group_count_spec (keys : list string) :
  NoDup (group_count keys).*1
  ∧ (∀ k n, (k, n) ∈ group_count keys
            ↔ k ∈ keys ∧ n = Z.of_nat (count_occ String.string_dec keys k))
  ∧ total_count (group_count keys) = Z.of_nat (length keys).
Proof.
  unfold group_count. repeat apply conj.
  - assert (∀ l : list string,
              ((λ k, (k, Z.of_nat (count_occ String.string_dec keys k)))
                 <$> l).*1 = l) as ->
      by (induction l as [|k l IH]; [reflexivity|];
          rewrite !fmap_cons, IH; reflexivity).
    apply NoDup_remove_dups.
  - intros k n. rewrite list_elem_of_fmap. split.
    + intros (k' & [= -> ->] & Hin). rewrite elem_of_remove_dups in Hin.
      split; [exact Hin|reflexivity].
    + intros [Hin ->]. exists k. rewrite elem_of_remove_dups.
      split; [reflexivity|exact Hin].
  - rewrite total_count_fmap. f_equal. apply sum_count_occ.
    + apply NoDup_remove_dups.
    + intros x Hx. now rewrite elem_of_remove_dups.
Qed.

Lemma count_occ_pos (keys : list string) (k : string) :
  k ∈ keys → (1 <= count_occ String.string_dec keys k)%nat.
Proof.
  intros Hin. apply list_elem_of_In in Hin.
  apply (count_occ_In String.string_dec) in Hin. lia.
Qed.

(** In a list sorted with the largest first, what [take n] keeps is at
    least as large as what it drops. *)
Lemma take_sorted_dominates {A} (R : relation A) (l : list A) n x y :
  StronglySorted R l → x ∈ take n l → y ∈ drop n l → R x y.
Proof.
  intros Hs Hx Hy. rewrite <-(take_drop n l) in Hs.
  eapply StronglySorted_app_1_elem_of; eauto.
Qed.

Section Stats.
Context `{Platform}.

Lemma stats_summary_eq (w : World) :
  let docs := map_to_list (portfolios w) in
  stats_summary w
  = (inr (mkStats
            (Z.of_nat (length (matching no_conditions w)))
            (Z.of_nat (length (matching
                                 (mkConditions None None None (Some true)) w)))
            (merge_sort count_ge (group_count ((λ d, category d.2) <$> docs)))
            (take 10 (merge_sort count_ge (group_count (unwind_tags docs))))
            (select_title_views
               <$> take 5 (drop 0 (merge_sort (sort_le [(by_views, -1)])
                                     (matching no_conditions w))))),
     w).
Proof. reflexivity. Qed.

Lemma matching_no_conditions (w : World) :
  matching no_conditions w = map_to_list (portfolios w).
Proof.
  unfold matching, no_conditions. simpl.
  induction (map_to_list (portfolios w)) as [|x xs IH]; simpl; congruence.
Qed.

Lemma length_matching_featured (docs : list (ObjectId * Portfolio)) :
  length (List.filter
            (λ d, matches (mkConditions None None None (Some true)) d.2) docs)
  = length (filter (λ d, featured d.2 = true) docs).
Proof.
  induction docs as [|d docs IH]; [reflexivity|].
  rewrite filter_cons. unfold matches at 1. simpl.
  destruct (decide (featured d.2 = true)) as [E|E].
  - rewrite bool_decide_eq_true_2 by assumption. simpl. now rewrite <-IH.
  - rewrite bool_decide_eq_false_2 by assumption. exact IH.
Qed.

Lemma count_occ_category (docs : list (ObjectId * Portfolio)) (c : string) :
  count_occ String.string_dec ((λ d, category d.2) <$> docs) c
  = length (filter (λ d, category d.2 = c) docs).
Proof.
  induction docs as [|d docs IH]; [reflexivity|].
  rewrite fmap_cons, filter_cons. cbn [count_occ].
  destruct (String.string_dec (category d.2) c) as [E|E].
  - rewrite decide_True by assumption. simpl. now rewrite IH.
  - now rewrite decide_False.
Qed.

(** X15. The statistics route changes nothing and always answers. Its
    [totalPortfolios] is the number of stored entries, and
    [featuredPortfolios], the number of those that are featured, is at
    most as large. [categoryStats] has one row for each category that
    some entry has, with the number of entries of that category (at
    least 1), largest count first; the counts add up to
    [totalPortfolios]. *)
Theorem stats_counts_add_up (w : World) :
  ∃ s, stats_summary w = (inr s, w)
    ∧ totalPortfolios s = Z.of_nat (size (portfolios w))
    ∧ featuredPortfolios s
      = Z.of_nat (length (filter (λ d, featured d.2 = true)
                            (map_to_list (portfolios w))))
    ∧ 0 <= featuredPortfolios s <= totalPortfolios s
    ∧ NoDup (categoryStats s).*1
    ∧ (∀ c n, (c, n) ∈ categoryStats s ↔
         1 <= n
         ∧ n = Z.of_nat (length (filter (λ d, category d.2 = c)
                                   (map_to_list (portfolios w)))))
    ∧ StronglySorted count_ge (categoryStats s)
    ∧ total_count (categoryStats s) = totalPortfolios s.
Proof.
  eexists. split; [apply stats_summary_eq|]. simpl.
  rewrite matching_no_conditions, length_map_to_list.
  unfold matching. rewrite length_matching_featured.
  destruct (group_count_spec ((λ d, category d.2) <$> map_to_list (portfolios w)))
    as (Hnd & Hrow & Hsum).
  repeat apply conj.
  - reflexivity.
  - reflexivity.
  - lia.
  - rewrite <-(length_map_to_list (portfolios w)).
    apply inj_le, length_filter.
  - now rewrite merge_sort_Permutation.
  - intros c n. rewrite merge_sort_Permutation, Hrow, count_occ_category. split.
    + intros [Hin ->]. split; [|reflexivity]. rewrite <-count_occ_category.
      apply count_occ_pos in Hin. exact (inj_le 1 _ Hin).
    + intros [Hpos ->]. split; [|reflexivity].
      destruct (filter (λ d, category d.2 = c) (map_to_list (portfolios w)))
        as [|d ds] eqn:Ef; [simpl in Hpos; lia|].
      assert (d ∈ filter (λ d, category d.2 = c) (map_to_list (portfolios w)))
        as Hd by (rewrite Ef; apply list_elem_of_here).
      apply list_elem_of_filter in Hd as [<- Hd].
      apply list_elem_of_fmap. eauto.
  - apply StronglySorted_merge_sort; apply _.
  - rewrite (total_count_Permutation _ _ (merge_sort_Permutation _ _)).
    etrans; [exact Hsum|]. now rewrite length_fmap, length_map_to_list.
Qed.
End Stats.

Lemma sort_le_views (a b : ObjectId * Portfolio) :
  sort_le [(by_views, -1)] a b ↔ views b.2 <= views a.2.
Proof.
  unfold sort_le, sort_leb. simpl. unfold directed. simpl.
  destruct (Z.compare_spec (views a.2) (views b.2)); simpl; split;
    intros; try lia; try reflexivity; try discriminate.
Qed.

Section StatsTop.
Context `{Platform}.

(** X16. [popularTags] has at most ten rows, for ten different tags,
    largest count first. The count of a tag is the number of times it
    occurs as a tag over all entries (a tag an entry lists twice counts
    twice) and is at least 1. A tag of some entry that is not in the rows
    occurs no more often than any tag in them; when the entries have at
    most ten different tags, every one of them is in the rows. *)
Theorem stats_popular_tags (w : World) :
  let occurrences := unwind_tags (map_to_list (portfolios w)) in
  ∃ s, stats_summary w = (inr s, w)
    ∧ (length (popularTags s) <= 10)%nat
    ∧ NoDup (popularTags s).*1
    ∧ StronglySorted count_ge (popularTags s)
    ∧ (∀ t n, (t, n) ∈ popularTags s →
         t ∈ occurrences ∧ 1 <= n
         ∧ n = Z.of_nat (count_occ String.string_dec occurrences t))
    ∧ (∀ t n t', (t, n) ∈ popularTags s →
         t' ∈ occurrences → t' ∉ (popularTags s).*1 →
         Z.of_nat (count_occ String.string_dec occurrences t') <= n)
    ∧ ((length (remove_dups occurrences) <= 10)%nat →
       ∀ t, t ∈ occurrences → t ∈ (popularTags s).*1).
Proof.
  intros occurrences.
  eexists. split; [apply stats_summary_eq|]. simpl. fold occurrences.
  destruct (group_count_spec occurrences) as (Hnd & Hrow & _).
  set (sorted := merge_sort count_ge (group_count occurrences)).
  assert (sorted ≡ₚ group_count occurrences) as Hperm
    by apply merge_sort_Permutation.
  assert (StronglySorted count_ge sorted) as Hsorted
    by (apply StronglySorted_merge_sort; apply _).
  assert (∀ t n, (t, n) ∈ take 10 sorted → (t, n) ∈ group_count occurrences)
    as Hin.
  { intros t n Ht. rewrite <-Hperm. eapply elem_of_sublist, sublist_take. eauto. }
  repeat apply conj.
  - rewrite length_take. lia.
  - eapply sublist_NoDup; [|apply fmap_sublist, sublist_take].
    now rewrite Hperm.
  - now apply StronglySorted_take.
  - intros t n Ht. apply Hin, Hrow in Ht as [Ht ->].
    repeat apply conj; [assumption| |reflexivity].
    apply count_occ_pos in Ht. lia.
  - intros t n t' Ht Ht' Hnot.
    assert ((t', Z.of_nat (count_occ String.string_dec occurrences t')) ∈ sorted)
      as Hs by (rewrite Hperm; apply Hrow; auto).
    rewrite <-(take_drop 10 sorted) in Hs. apply elem_of_app in Hs as [Hs|Hs].
    + exfalso. apply Hnot. apply list_elem_of_fmap. eexists. split; [|exact Hs].
      reflexivity.
    + exact (take_sorted_dominates count_ge sorted 10 _ _ Hsorted Ht Hs).
  - intros Hfew t Ht. rewrite take_ge.
    + apply list_elem_of_fmap.
      exists (t, Z.of_nat (count_occ String.string_dec occurrences t)).
      split; [reflexivity|]. rewrite Hperm. apply Hrow. auto.
    + rewrite Hperm. unfold group_count. now rewrite length_fmap.
Qed.

(** X17. [topViewedPortfolios] shows at most five entries, five when
    there are as many, each with its identifier, title and views as
    stored, none twice, most viewed first; and no entry that is left out
    has more views than one that is shown. *)
Theorem stats_top_viewed (w : World) :
  ∃ s, stats_summary w = (inr s, w)
    ∧ length (topViewedPortfolios s) = (5 `min` size (portfolios w))%nat
    ∧ NoDup (topViewedPortfolios s).*1
    ∧ (∀ row, row ∈ topViewedPortfolios s →
         ∃ p, portfolios w !! row.1 = Some p ∧ row.2 = (title p, views p))
    ∧ StronglySorted (λ a b, b.2.2 <= a.2.2) (topViewedPortfolios s)
    ∧ (∀ row id p, row ∈ topViewedPortfolios s →
         portfolios w !! id = Some p → id ∉ (topViewedPortfolios s).*1 →
         views p <= row.2.2).
Proof.
  eexists. split; [apply stats_summary_eq|]. cbn [topViewedPortfolios].
  rewrite drop_0, matching_no_conditions.
  set (sorted := merge_sort (sort_le [(by_views, -1)]) (map_to_list (portfolios w))).
  assert (sorted ≡ₚ map_to_list (portfolios w)) as Hperm
    by apply merge_sort_Permutation.
  assert (StronglySorted (sort_le [(by_views, -1)]) sorted) as Hsorted
    by (apply StronglySorted_merge_sort; apply _).
  assert ((select_title_views <$> take 5 sorted).*1 = (take 5 sorted).*1) as Hids.
  { generalize (take 5 sorted). intros l.
    induction l as [|d l IH]; [reflexivity|]. rewrite !fmap_cons, IH. reflexivity. }
  repeat apply conj.
  - rewrite length_fmap, length_take, (Permutation_length Hperm).
    f_equal. apply length_map_to_list.
  - rewrite Hids. eapply sublist_NoDup; [|apply fmap_sublist, sublist_take].
    rewrite Hperm. apply NoDup_fst_map_to_list.
  - intros row Hrow. apply list_elem_of_fmap in Hrow as (d & -> & Hd).
    exists d.2. split; [|reflexivity].
    change ((select_title_views d).1) with d.1.
    apply (elem_of_map_to_list' (portfolios w) d). rewrite <-Hperm.
    eapply elem_of_sublist, sublist_take. eauto.
  - apply StronglySorted_fmap with (R1 := sort_le [(by_views, -1)]).
    + intros a b Hab. now apply sort_le_views in Hab.
    + now apply StronglySorted_take.
  - intros row id p Hrow Hp Hnot.
    apply list_elem_of_fmap in Hrow as (d & -> & Hd). simpl.
    assert ((id, p) ∈ sorted) as Hs
      by (rewrite Hperm; now apply elem_of_map_to_list).
    rewrite <-(take_drop 5 sorted) in Hs. apply elem_of_app in Hs as [Hs|Hs].
    + exfalso. apply Hnot. rewrite Hids. apply list_elem_of_fmap.
      exists (id, p). auto.
    + pose proof (take_sorted_dominates _ sorted 5 _ _ Hsorted Hd Hs) as Hle.
      now apply sort_le_views in Hle.
Qed.
End StatsTop.

(** The statistics of the two sample entries. *)
Example stats_of_two_entries :
  (@stats_summary Sample.platform Sample.two_entries).1
  = inr (mkStats 2 1
           [("플랫폼", 1); ("AI/ML", 1)]
           [("API", 1); ("플랫폼", 1); ("큐레이션", 1); ("AI", 1)]
           [(Sample.id1, ("API Hub", 0)); (Sample.id2, ("CULF AI", 0))]).
Proof. vm_compute. reflexivity. Qed.

(** ** The serverless routes against those of the server *)

Section Siblings.
Context `{Platform}.

Lemma serverless_update_found id oid body p w :
  castObjectId id = Some oid → portfolios w !! oid = Some p →
  ServerlessApi.update_portfolio id body w
  = let d := match b_imageBase64 body with
             | Some imageBase64 => with_imageBase64 imageBase64 (update_data body)
             | None => update_data body
             end in
    if validate (assign p d)
    then (mkResponse 200 true (DataPortfolio oid (assign p d)),
          mkWorld (<[oid := assign p d]> (portfolios w)) (gridfs w))
    else (mkResponse 400 false NoData, w).
Proof.
  intros Hc Hf. unfold ServerlessApi.update_portfolio, try_catch. rewrite Hc.
  unfold mbind, M_bind, findById. rewrite Hf. unfold save. simpl.
  match goal with |- context [validate ?x] => destruct (validate x) end;
    reflexivity.
Qed.

(** X18. Without an upload the create route of the serverless entry
    point answers and stores exactly what the create route of the server
    does. So does its update route, as long as the entry addressed refers
    to no file and the body does not carry an empty [imageBase64]. *)
Theorem serverless_routes_agree_without_upload fileId id body w :
  (∀ now oid,
     ServerlessApi.create_portfolio now oid body w
     = create_portfolio now oid fileId body None w)
  ∧ ((∀ oid p, castObjectId id = Some oid → portfolios w !! oid = Some p →
        imageId p = None) →
     b_imageBase64 body ≠ Some "" →
     ServerlessApi.update_portfolio id body w
     = update_portfolio fileId id body None w).
Proof.
  split.
  - intros now oid.
    unfold ServerlessApi.create_portfolio, create_portfolio, create_image,
      try_catch, mbind, M_bind, mret, M_ret.
    destruct (JS.truthy_str (b_imageBase64 body)); reflexivity.
  - intros Hno Hne. destruct (castObjectId id) as [oid|] eqn:Hc.
    + destruct (portfolios w !! oid) as [p|] eqn:Hf.
      * rewrite (serverless_update_found id oid body p w Hc Hf).
        rewrite (update_portfolio_found fileId id oid body None p w Hc Hf).
        destruct (b_imageBase64 body) as [b64|] eqn:Hb.
        -- rewrite (update_image_base64 p fileId body b64 _ w Hb) by congruence.
           rewrite (Hno oid p eq_refl Hf). simpl.
           destruct w as [ps [g|]]; reflexivity.
        -- rewrite update_image_none by now rewrite Hb. reflexivity.
      * unfold ServerlessApi.update_portfolio, update_portfolio, try_catch.
        rewrite Hc. unfold mbind, M_bind, findById. now rewrite Hf.
    + unfold ServerlessApi.update_portfolio, update_portfolio, try_catch.
      now rewrite Hc.
Qed.

(** X19. Where the two update routes part: a body with the empty string
    as [imageBase64], on an entry that has an inline image. A successful
    update through the serverless route leaves the entry without inline
    image; one through the route of the server leaves the inline image
    as it was. *)
Theorem empty_inline_image_clears_only_serverless fileId id oid body p w :
  castObjectId id = Some oid → portfolios w !! oid = Some p →
  b_imageBase64 body = Some "" →
  (∀ r w', ServerlessApi.update_portfolio id body w = (r, w') →
           status r = 200 →
           imageBase64 <$> portfolios w' !! oid = Some "")
  ∧ (∀ r w', update_portfolio fileId id body None w = (r, w') →
             status r = 200 →
             imageBase64 <$> portfolios w' !! oid = Some (imageBase64 p)).
Proof.
  intros Hc Hf Hb. split; intros r w'.
  - rewrite (serverless_update_found id oid body p w Hc Hf), Hb. simpl.
    match goal with |- context [validate ?x] => destruct (validate x) end;
      intros [= <- <-] Hs; [|discriminate].
    simpl. rewrite lookup_insert_eq. simpl.
    destruct (assign_paths p (with_imageBase64 "" (update_data body)))
      as (_ & _ & _ & _ & _ & _ & _ & Hb64 & _).
    now rewrite Hb64.
  - rewrite (update_portfolio_found fileId id oid body None p w Hc Hf).
    rewrite update_image_none by now rewrite Hb.
    destruct (validate (assign p (update_data body)));
      intros [= <- <-] Hs; [|discriminate].
    simpl. rewrite lookup_insert_eq. simpl.
    destruct (assign_paths p (update_data body))
      as (_ & _ & _ & _ & _ & _ & _ & Hb64 & _).
    now rewrite Hb64.
Qed.

(** X20. The delete route of the serverless entry point answers as the
    one of the server does and leaves the same collection, but it never
    touches the bucket: after it has deleted an entry that referred to a
    stored file, the image route still serves that file. *)
Theorem serverless_delete_keeps_the_blob id w :
  (ServerlessApi.delete_portfolio id w).1 = (delete_portfolio id w).1
  ∧ portfolios (ServerlessApi.delete_portfolio id w).2
    = portfolios (delete_portfolio id w).2
  ∧ gridfs (ServerlessApi.delete_portfolio id w).2 = gridfs w
  ∧ (∀ oid p fileId bucket f s,
       castObjectId id = Some oid → portfolios w !! oid = Some p →
       imageId p = Some fileId → gridfs w = Some bucket →
       bucket !! fileId = Some f → castObjectId s = Some fileId →
       (get_image s (ServerlessApi.delete_portfolio id w).2).1
       = ImageSent (contentType f) (Z.of_nat (length (content f)))
                   "public, max-age=31536000" (content f)
       ∧ (get_image s (delete_portfolio id w).2).1 = ImageError 404).
Proof.
  unfold ServerlessApi.delete_portfolio, delete_portfolio, try_catch.
  destruct (castObjectId id) as [oid|] eqn:Hc.
  2:{ repeat apply conj; try reflexivity. intros; discriminate. }
  unfold mbind, M_bind, findById.
  destruct (portfolios w !! oid) as [p|] eqn:Hf.
  2:{ repeat apply conj; try reflexivity.
      intros oid' p' fileId bucket f s [= <-] Hf'. congruence. }
  destruct (imageId p) as [fid|] eqn:Hi.
  - rewrite try_delete_eq. unfold findByIdAndDelete, mret, M_ret. simpl.
    repeat apply conj; try reflexivity.
    intros oid' p' fileId bucket f s [= <-] Hf' Hi' Hg Hb Hs.
    rewrite Hf in Hf'. injection Hf' as <-.
    rewrite Hi in Hi'. injection Hi' as <-.
    rewrite !get_image_eq, Hs. simpl. rewrite Hg. simpl.
    now rewrite Hb, lookup_delete_eq.
  - unfold findByIdAndDelete, mret, M_ret. simpl.
    repeat apply conj; try reflexivity.
    intros oid' p' fileId bucket f s [= <-] Hf' Hi'.
    rewrite Hf in Hf'. injection Hf' as <-. congruence.
Qed.
End Siblings.

Lemma serverless_routes_agree_without_upload_witness :
  @ServerlessApi.update_portfolio Sample.platform Sample.id2
     SamplePatch.rename Sample.two_entries
  = SamplePatch.renamed.
Proof.
  apply (proj2 (@serverless_routes_agree_without_upload Sample.platform
                  Sample.blob2 Sample.id2 SamplePatch.rename
                  Sample.two_entries)).
  - intros oid p [= <-]. vm_compute. now intros [= <-].
  - vm_compute. discriminate.
Defined.

Lemma empty_inline_image_clears_only_serverless_witness :
  let p := set_imageBase64 "data:image/png;base64,iVBORw0KGgo=" Sample.culf_ai in
  let w := mkWorld (<[Sample.id2 := p]> ∅) (Some ∅) in
  let body := mkBody None None None None None JS.Undefined (Some "") in
  imageBase64 <$> portfolios
                    (@ServerlessApi.update_portfolio Sample.platform
                       Sample.id2 body w).2 !! Sample.id2
  = Some ""
  ∧ imageBase64 <$> portfolios
                      (@update_portfolio Sample.platform Sample.blob2
                         Sample.id2 body None w).2 !! Sample.id2
    = Some (imageBase64 p).
Proof.
  intros p w body.
  destruct (@empty_inline_image_clears_only_serverless Sample.platform
              Sample.blob2 Sample.id2 Sample.id2 body p w
              eq_refl ltac:(vm_compute; reflexivity) eq_refl) as [H1 H2].
  split.
  - apply (H1 _ _ (surjective_pairing _)). vm_compute. reflexivity.
  - apply (H2 _ _ (surjective_pairing _)). vm_compute. reflexivity.
Defined.

Lemma serverless_delete_keeps_the_blob_witness :
  (@get_image Sample.platform Sample.blob1
     (@ServerlessApi.delete_portfolio Sample.platform Sample.id3
        SampleUpdate.with_blob).2).1
  = ImageSent "image/png" 0 "public, max-age=31536000" []
  ∧ (@get_image Sample.platform Sample.blob1
       (@delete_portfolio Sample.platform Sample.id3 SampleUpdate.with_blob).2).1
    = ImageError 404.
Proof.
  apply (proj2 (proj2 (proj2
           (@serverless_delete_keeps_the_blob Sample.platform Sample.id3
              SampleUpdate.with_blob)))
           Sample.id3 (set_imageId (Some Sample.blob1) Sample.culf_ai)
           Sample.blob1
           (<[Sample.blob1 := mkGridFile "old.png" "image/png" []]> ∅)
           (mkGridFile "old.png" "image/png" []) Sample.blob1);
    vm_compute; reflexivity.
Defined.

(** ** The mail relay *)

Section MailFacts.
Import Mail.



Lemma nl2br_no_line_feed (s : string) : ascii_of_nat 10 ∉ chars (nl2br s).
Proof.
  induction s as [|c s IH]; simpl.
  - apply not_elem_of_nil.
  - destruct (bool_decide (c = ascii_of_nat 10)) eqn:E; simpl.
    + rewrite !not_elem_of_cons. repeat split; try discriminate. exact IH.
    + apply bool_decide_eq_false in E. rewrite not_elem_of_cons. split; auto.
Qed.

Lemma nl2br_length (s : string) :
  String.length (nl2br s) = (String.length s + 3 * line_feeds s)%nat.
Proof.
  induction s as [|c s IH]; [reflexivity|].
  cbn [nl2br line_feeds].
  destruct (bool_decide (c = ascii_of_nat 10)).
  - change (String.length ("<br>" +:+ nl2br s))
      with (S (S (S (S (String.length (nl2br s)))))).
    cbn [String.length]. rewrite IH. lia.
  - cbn [String.length]. rewrite IH. lia.
Qed.

Lemma nl2br_id (s : string) : line_feeds s = 0%nat → nl2br s = s.
Proof.
  induction s as [|c s IH]; simpl; [reflexivity|].
  destruct (bool_decide (c = ascii_of_nat 10)); simpl; [discriminate|].
  intros Hs. now rewrite IH.
Qed.

(** X22. In the text that goes into the mail no line feed of the message
    is left: each has become [<br>], which makes the text three characters
    longer for each line feed, and a message without line feed goes in as
    it is. No other character is touched. *)
Theorem message_line_feeds_become_br (s : string) :
  (ascii_of_nat 10 ∉ chars (nl2br s))
  ∧ String.length (nl2br s) = (String.length s + 3 * line_feeds s)%nat
  ∧ (line_feeds s = 0%nat → nl2br s = s)
  ∧ (∀ s1 s2, nl2br (s1 +:+ s2) = nl2br s1 +:+ nl2br s2)
  ∧ nl2br nl = "<br>".
Proof.
  repeat apply conj.
  - apply nl2br_no_line_feed.
  - apply nl2br_length.
  - apply nl2br_id.
  - intros s1 s2. induction s1 as [|c s1 IH]; simpl; [reflexivity|].
    destruct (bool_decide (c = ascii_of_nat 10)); simpl; now rewrite IH.
  - reflexivity.
Qed.

(** X23. For a POST the serverless function and the route of the server
    do the same: the same outbox afterwards, the same status and the same
    [success]. Their answers differ in one case only, in the text: when
    the credentials are missing, the route says that the mail service is
    not configured and the function that sending failed. *)
Theorem mail_handlers_agree accepts env body outbox :
  (handler accepts env "POST" body outbox).2 = (route accepts env body outbox).2
  ∧ code (handler accepts env "POST" body outbox).1
    = code (route accepts env body outbox).1
  ∧ ok (handler accepts env "POST" body outbox).1
    = ok (route accepts env body outbox).1
  ∧ (credentials env ≠ None →
     handler accepts env "POST" body outbox = route accepts env body outbox)
  ∧ (credentials env = None →
     text (handler accepts env "POST" body outbox).1
       = Some "이메일 전송에 실패했습니다."
     ∧ text (route accepts env body outbox).1
       = Some "이메일 서비스가 설정되지 않았습니다.").
Proof.
  unfold handler, route.
  rewrite bool_decide_eq_false_2 by discriminate.
  rewrite bool_decide_eq_true_2 by reflexivity. cbn [negb].
  destruct (credentials env) as [user|].
  - repeat apply conj; try reflexivity. discriminate.
  - repeat apply conj; try reflexivity. now intros [].
    intros _. split; reflexivity.
Qed.

End MailFacts.


(** ** Seeding *)

(** X24. The serverless entry point seeds on every list request, so its
    collection is never seen empty: when its DELETE has removed the one
    entry that was left, the next list request stores the default data
    and answers from them. Before the delete, with its one entry, the
    collection is listed as it is, whatever the default data are. *)
Theorem defaults_return_after_last_delete `{Platform}
    (defaults : gmap string Portfolio) (id : string) (oid : ObjectId)
    (p : Portfolio) (q : ListParams) (w : World) :
  castObjectId id = Some oid →
  portfolios w = {[oid := p]} →
  portfolios (ServerlessApi.delete_portfolio id w).2 = ∅
  ∧ serverless_list_portfolios defaults q (ServerlessApi.delete_portfolio id w).2
    = list_portfolios Serverless.findWithFilters q (mkWorld defaults (gridfs w))
  ∧ serverless_list_portfolios defaults q w
    = list_portfolios Serverless.findWithFilters q w.
Proof.
  intros Hc Hw.
  assert (portfolios w !! oid = Some p) as Hf.
  { rewrite Hw. apply lookup_singleton_eq. }
  assert ((ServerlessApi.delete_portfolio id w).2
          = mkWorld (delete oid (portfolios w)) (gridfs w)) as ->.
  { unfold ServerlessApi.delete_portfolio, try_catch. rewrite Hc.
    unfold findById, findByIdAndDelete, mbind, mret, M_bind, M_ret; simpl.
    rewrite Hf. reflexivity. }
  rewrite Hw, delete_singleton_eq. cbn [portfolios gridfs].
  repeat apply conj.
  - reflexivity.
  - unfold serverless_list_portfolios, initializeDefaultData.
    cbn [portfolios gridfs]. rewrite map_size_empty.
    rewrite bool_decide_eq_true_2 by reflexivity. reflexivity.
  - unfold serverless_list_portfolios, initializeDefaultData.
    rewrite Hw, map_size_singleton.
    rewrite bool_decide_eq_false_2 by discriminate. reflexivity.
Qed.

Lemma defaults_return_after_last_delete_witness :
  portfolios (@ServerlessApi.delete_portfolio Sample.platform Sample.id3
                SampleUpdate.with_blob).2 = ∅
  ∧ @serverless_list_portfolios Sample.platform (portfolios Sample.two_entries)
      Sample.no_params
      (@ServerlessApi.delete_portfolio Sample.platform Sample.id3
         SampleUpdate.with_blob).2
    = @list_portfolios Sample.platform Serverless.findWithFilters
        Sample.no_params
        (mkWorld (portfolios Sample.two_entries) (gridfs SampleUpdate.with_blob))
  ∧ @serverless_list_portfolios Sample.platform (portfolios Sample.two_entries)
      Sample.no_params SampleUpdate.with_blob
    = @list_portfolios Sample.platform Serverless.findWithFilters
        Sample.no_params SampleUpdate.with_blob.
Proof.
  apply (@defaults_return_after_last_delete Sample.platform
           (portfolios Sample.two_entries) Sample.id3 Sample.id3
           (set_imageId (Some Sample.blob1) Sample.culf_ai)
           Sample.no_params SampleUpdate.with_blob);
    reflexivity.
Defined.
